(** * Campus energy dashboard: the ingestion and aggregation pipeline

    A shallow embedding of [campus_energy_dashboard/data/Python code/main.py]:
    the source loader and merger ([load_and_merge]), the aggregator
    ([calculate_daily_totals], [calculate_weekly_aggregates],
    [building_wise_summary]), the building registry ([Building],
    [BuildingManager]) and the figures of the text summary
    ([write_summary]).

    Conventions of the model. The library calls are those of pandas 2 and
    of numpy.
    - A pandas [DataFrame] is the list of its rows, in index order.
    - A float64 is an exact rational, one of the two infinities, or NaN:
      rounding and overflow are abstracted, the special values are not. A
      statement that holds only for exact sums says so.
    - A timestamp is the number of nanoseconds since the epoch, [None] is
      NaT. It is tz-naive, or tz-aware in UTC; in a frame under construction
      each row carries which of the two it is.
    - A missing cell of a text column is [None]. As a key of a dict a
      missing building name is known by its object ([key]).
    - [sort_values] is called with the default sort kind, which fixes the
      result up to the order of equal keys: the algorithm is a parameter,
      and [quicksort] is the one that numpy runs on a column of timestamps.
    - Python objects that are shared and mutated (the [Building] accumulators
      of a [BuildingManager]) live in an explicit heap and are named by their
      location. *)

From Stdlib Require Import ZArith QArith Qcanon Lia.
From Stdlib Require Import Sorted Permutation Ascii String.
From stdpp Require Import base option list strings sorting.

#[local] Open Scope Z_scope.

(** ** Exceptions and results *)

(** [ValueError] is the exception the pipeline and numpy raise themselves.
    [ReadError] stands for any exception of [pd.read_csv] other than
    [FileNotFoundError] (an empty file, bytes that do not decode, a
    directory, a permission): the loader does not catch it. [TypeError] is
    what the comparison of a tz-aware with a tz-naive timestamp raises; its
    text depends on the objects that are compared and is left out. *)
Inductive exn : Type :=
| ValueError (msg : string)
| ReadError (msg : string)
| TypeError.

Inductive result (A : Type) : Type :=
| Return (a : A)
| Raise (e : exn).
Arguments Return {A} a.
Arguments Raise {A} e.

Definition raises {A} (r : result A) : bool :=
  match r with Raise _ => true | Return _ => false end.

(** ** Floating-point values *)

Inductive float64 : Type :=
| Fin (q : Qc)
| PInf
| NInf
| NaN.

#[global] Instance float64_eq_dec : EqDecision float64.
Proof. solve_decision. Defined.

Definition isna (x : float64) : bool :=
  match x with NaN => true | _ => false end.

Definition notna (x : float64) : bool := negb (isna x).

Definition fzero : float64 := Fin 0%Qc.

Definition of_Z (z : Z) : float64 := Fin (Q2Qc (inject_Z z)).

(** IEEE addition on the special values, exact on the finite ones: a sum
    of finite values neither rounds nor overflows to an infinity here, as
    it can in float64. A statement that needs this says that its sums are
    exact; the others hold with any rounding and with overflow. *)
Definition fadd (x y : float64) : float64 :=
  match x, y with
  | NaN, _ | _, NaN => NaN
  | Fin a, Fin b => Fin (a + b)%Qc
  | PInf, NInf | NInf, PInf => NaN
  | PInf, _ | _, PInf => PInf
  | NInf, _ | _, NInf => NInf
  end.

(** Division of a sum by a (positive) count, as [mean] does. *)
Definition fdiv_count (x : float64) (n : nat) : float64 :=
  match x with
  | Fin a => Fin (a / Q2Qc (inject_Z (Z.of_nat n)))%Qc
  | other => other
  end.

(** [x <= y] on values that are not NaN. *)
Definition fle (x y : float64) : bool :=
  match x, y with
  | NaN, _ | _, NaN => false
  | NInf, _ | _, PInf => true
  | Fin a, Fin b => bool_decide (a <= b)%Qc
  | _, _ => false
  end.

(** The larger and the smaller of two values; NaN propagates, as in numpy. *)
Definition fmax (x y : float64) : float64 :=
  match x, y with
  | NaN, _ | _, NaN => NaN
  | _, _ => if fle x y then y else x
  end.

Definition fmin (x y : float64) : float64 :=
  match x, y with
  | NaN, _ | _, NaN => NaN
  | _, _ => if fle x y then x else y
  end.

(** The sign test of the data model: a finite value that is not negative. *)
Definition finite_nonneg (x : float64) : bool :=
  match x with
  | Fin a => bool_decide (0 <= a)%Qc
  | _ => false
  end.

(** *** numpy reductions ([ndarray.sum], [mean], [max]): NaN propagates,
    [max] of an empty array raises. *)

Definition np_sum (l : list float64) : float64 := foldr fadd fzero l.

Definition np_mean (l : list float64) : float64 :=
  match l with
  | [] => NaN
  | _ => fdiv_count (np_sum l) (length l)
  end.

Definition np_max (l : list float64) : result float64 :=
  match l with
  | [] => Raise (ValueError "zero-size array to reduction operation maximum which has no identity")
  | x :: l' => Return (foldl fmax x l')
  end.

(** *** pandas reductions ([sum], [mean], [min], [max] with [skipna=True]):
    NaN entries are left out; an empty selection sums to 0 and has NaN for
    mean, minimum and maximum. *)

Definition pd_sum (l : list float64) : float64 := np_sum (filter (λ x, notna x = true) l).

Definition pd_mean (l : list float64) : float64 := np_mean (filter (λ x, notna x = true) l).

Definition pd_max (l : list float64) : float64 :=
  match filter (λ x, notna x = true) l with
  | [] => NaN
  | x :: l' => foldl fmax x l'
  end.

Definition pd_min (l : list float64) : float64 :=
  match filter (λ x, notna x = true) l with
  | [] => NaN
  | x :: l' => foldl fmin x l'
  end.

(** ** Stable sorting

    Insertion sort with the test [before x y] ("x goes in front of y").
    With a reflexive test an element is put in front of the equal elements
    that followed it in the input, which keeps their input order. *)
Section SortBy.
Context {A : Type} (before : A → A → bool).

Fixpoint insert_by (x : A) (l : list A) : list A :=
  match l with
  | [] => [x]
  | y :: l' => if before x y then x :: l else y :: insert_by x l'
  end.

Definition sort_by (l : list A) : list A := foldr insert_by [] l.
End SortBy.

(** ** Tables *)

(** A row of a data frame with the columns [building], [timestamp], [kwh]. *)
Record row : Type := Row {
  building : option string;
  timestamp : option Z;
  kwh : float64;
}.

#[global] Instance row_eq_dec : EqDecision row.
Proof. solve_decision. Defined.

Abbreviation DataFrame := (list row).

(** ** Raw sources *)

(** A field of a CSV line, by what the pandas parser that is asked to read
    it makes of its text; an empty field is [Unparseable]. *)
Inductive field (A : Type) : Type :=
| Parsed (a : A)
| Unparseable.
Arguments Parsed {A} a.
Arguments Unparseable {A}.

(** The format of the text of a timestamp, as [pd.to_datetime] guesses it
    from the text: its layout, and whether the text carries the UTC
    designator, which makes the timestamp tz-aware. *)
Record format : Type := Format {
  layout : string;
  utc : bool;
}.

#[global] Instance format_eq_dec : EqDecision format.
Proof. solve_decision. Defined.

(** Two formats of the examples: [2025-01-01 00:00:00] and
    [2025-01-01 00:00:00Z]. *)
Definition naive : format := {| layout := "%Y-%m-%d %H:%M:%S"; utc := false |}.
Definition zulu : format := {| layout := "%Y-%m-%d %H:%M:%S%z"; utc := true |}.

(** A third one: [01/31/2025 00:00]. *)
Definition slashes : format := {| layout := "%m/%d/%Y %H:%M"; utc := false |}.

(** A cell of the [timestamp] column, by what [pd.to_datetime] makes of its
    text. [Stamp f t] is a text in the format [f] that reads as the instant
    [t]: the parser that is given a format reads it under [f] and under no
    other format. [Garbled] is a text that is no time and has no format.
    [Blank] is an empty cell, which [read_csv] has made a missing value. *)
Inductive stamp : Type :=
| Blank
| Garbled
| Stamp (f : format) (t : Z).

#[global] Instance stamp_eq_dec : EqDecision stamp.
Proof. solve_decision. Defined.

(** One line of a CSV file. [raw_building] is the cell of the [building]
    column, read only when the table has that column. *)
Record raw_row : Type := RawRow {
  raw_timestamp : stamp;
  raw_kwh : field float64;
  raw_building : option string;
}.

(** What [pd.read_csv] returns: the header and the lines. *)
Record csv_table : Type := CsvTable {
  columns : list string;
  lines : list raw_row;
}.

(** What [pd.read_csv] does with a path the glob listed: it raises
    [FileNotFoundError] (the file is gone by then), it raises another
    exception, or it returns a table. *)
Inductive file : Type :=
| Vanished
| Unreadable (msg : string)
| Table (t : csv_table).

(** A directory entry: name and content. *)
Abbreviation entry := (string * file)%type.
Abbreviation directory := (list entry).

(** How [pd.to_datetime] reads a column of texts (pandas 2): it guesses a
    format from the first cell that is not missing and reads every cell
    under that format; when that text has no format it can guess, it reads
    the cells one by one, each in its own format. *)
Inductive parse_mode : Type :=
| Strict (f : format)
| CellByCell.

Definition is_blank (c : stamp) : bool :=
  match c with Blank => true | _ => false end.

Definition guess_mode (cells : list stamp) : parse_mode :=
  match filter (λ c, is_blank c = false) cells with
  | Stamp f _ :: _ => Strict f
  | _ => CellByCell
  end.

(** One cell under a mode: the instant, and whether it is tz-aware; [None]
    is NaT ([errors="coerce"]). *)
Definition read_stamp (m : parse_mode) (c : stamp) : option (Z * bool) :=
  match c with
  | Stamp f t =>
      match m with
      | Strict f' => if decide (f = f') then Some (t, utc f) else None
      | CellByCell => Some (t, utc f)
      end
  | Blank | Garbled => None
  end.

(** [pd.to_datetime(column, errors="coerce")]. *)
Definition to_datetime (cells : list stamp) : list (option (Z * bool)) :=
  read_stamp (guess_mode cells) <$> cells.

(** [pd.to_numeric(..., errors="coerce")] on one cell. *)
Definition to_numeric (c : field float64) : float64 :=
  match c with Parsed x => x | Unparseable => NaN end.

(** ** Paths *)

Definition endswith (s suffix : string) : bool :=
  let n := String.length s in
  let m := String.length suffix in
  (m <=? n)%nat && String.eqb (String.substring (n - m) m s) suffix.

(** [Path.glob("*.csv")] keeps the names this accepts. *)
Definition glob_csv (d : directory) : directory :=
  filter (λ e, endswith e.1 ".csv" = true) d.

(** [str.rfind(".")]. *)
Fixpoint rfind_dot (s : string) : option nat :=
  match s with
  | EmptyString => None
  | String c s' =>
      match rfind_dot s' with
      | Some i => Some (S i)
      | None => if Ascii.eqb c "."%char then Some 0%nat else None
      end
  end.

(** [PurePath.stem]: the name without its last suffix. *)
Definition stem (name : string) : string :=
  match rfind_dot name with
  | Some i =>
      if (0 <? i)%nat && (i <? String.length name - 1)%nat
      then String.substring 0 i name else name
  | None => name
  end.

(** [sorted(...)] on the paths of one directory: by name, stable. *)
Definition path_leb (e1 e2 : entry) : bool := String.leb e1.1 e2.1.

Definition sorted (d : directory) : directory := sort_by path_leb d.

(** ** Source loader and merger *)

(** A row of a frame under construction: the row, and whether its
    timestamp is tz-aware. *)
Abbreviation tz_row := (row * bool)%type.
Abbreviation tz_frame := (list tz_row).

Definition dropna_timestamp (df : tz_frame) : tz_frame :=
  filter (λ r, is_Some (timestamp r.1)) df.

Definition dropna_kwh (df : tz_frame) : tz_frame :=
  filter (λ r, notna (kwh r.1) = true) df.

(** The mode in which line 93 reads the [timestamp] column of a table. *)
Definition mode_of (t : csv_table) : parse_mode :=
  guess_mode (raw_timestamp <$> lines t).

(** Lines 93 and 95, on one line of a table whose [timestamp] column is
    read in the mode [m]. [to_numeric] works cell by cell, so that coercing
    [kwh] before or after the rows without a timestamp are dropped gives
    the same frame. *)
Definition coerce (m : parse_mode) (r : raw_row) : tz_row :=
  let ts := read_stamp m (raw_timestamp r) in
  ({| building := raw_building r;
      timestamp := fst <$> ts;
      kwh := to_numeric (raw_kwh r) |},
   from_option snd false ts).

Definition assign_building (name : string) (r : tz_row) : tz_row :=
  ({| building := Some name; timestamp := timestamp r.1; kwh := kwh r.1 |}, r.2).

(** Lines 93-99 on one table: coerce, drop the rows without a timestamp,
    drop the rows without a number, name the building after the file when
    the table has no [building] column. *)
Definition clean (name : string) (t : csv_table) : tz_frame :=
  let df := dropna_kwh (dropna_timestamp (coerce (mode_of t) <$> lines t)) in
  if bool_decide ("building" ∈ columns t) then df
  else assign_building (stem name) <$> df.

Definition has_structure (t : csv_table) : bool :=
  bool_decide ("timestamp" ∈ columns t) && bool_decide ("kwh" ∈ columns t).

(** The body of the loop of [load_and_merge], on the pair [(frames, log)]:
    only [FileNotFoundError] is caught. *)
Definition load_step (acc : list tz_frame * list string) (e : entry)
  : result (list tz_frame * list string) :=
  let '(frames, log) := acc in
  match e.2 with
  | Vanished => Return (frames, log ++ ["Missing file: " +:+ e.1])
  | Unreadable msg => Raise (ReadError msg)
  | Table t =>
      if has_structure t then Return (frames ++ [clean e.1 t], log)
      else Return (frames, log ++ ["Invalid structure in: " +:+ e.1])
  end.

(** The loop: an exception of the body ends it. *)
Fixpoint load_loop (acc : list tz_frame * list string) (es : directory)
  : result (list tz_frame * list string) :=
  match es with
  | [] => Return acc
  | e :: es' =>
      match load_step acc e with
      | Raise x => Raise x
      | Return acc' => load_loop acc' es'
      end
  end.

(** NaT sorts last ([na_position="last"]). *)
Definition ts_le (a b : option Z) : Prop :=
  match a, b with
  | Some x, Some y => x ≤ y
  | _, None => True
  | None, Some _ => False
  end.

Definition row_le (r1 r2 : row) : Prop := ts_le (timestamp r1) (timestamp r2).

(** [DataFrame.sort_values("timestamp")] with the default
    [kind="quicksort"]: the rows come back reordered by ascending timestamp.
    The order of rows with equal timestamps is the algorithm's own, so the
    algorithm is a parameter of the model. *)
Record sort_kind : Type := SortKind {
  sort_values : DataFrame → DataFrame;
  sort_values_perm : ∀ df, sort_values df ≡ₚ df;
  sort_values_sorted : ∀ df, Sorted row_le (sort_values df);
}.

(** [pd.concat(frames, ignore_index=True)]. *)
Definition pd_concat (frames : list tz_frame) : tz_frame := mjoin frames.

Definition no_data : exn := ValueError "No valid CSV files found in data folder".

(** The timestamps of a frame compare with each other when all of them are
    tz-naive or all of them are tz-aware. A column that holds both kinds is
    a column of objects, and sorting it compares a timestamp of one kind
    with one of the other, which raises. *)
Definition comparable (df : tz_frame) : bool :=
  forallb snd df || forallb (λ r, negb r.2) df.

Definition tz_error : exn := TypeError.

(** [load_and_merge]: the merged frame and the messages printed. *)
Definition load_and_merge (K : sort_kind) (data_path : directory)
  : result (DataFrame * list string) :=
  match load_loop ([], []) (sorted (glob_csv data_path)) with
  | Raise x => Raise x
  | Return (frames, log) =>
      match frames with
      | [] => Raise no_data
      | _ =>
          let merged := pd_concat frames in
          if comparable merged then Return (sort_values K merged.*1, log)
          else Raise tz_error
      end
  end.

(** The stages of [main] after the load (lines 201-215) are a parameter:
    what they write and whether they fail is theirs. [main] itself decides
    only that they run after [load_and_merge] has returned. *)
Record run : Type := Run {
  written : list string;
  failure : option exn;
}.

Definition main (K : sort_kind) (stages : DataFrame → run) (data_path : directory) : run :=
  match load_and_merge K data_path with
  | Raise e => {| written := []; failure := Some e |}
  | Return (df, _) => stages df
  end.

(** Views of the loop of [load_and_merge]: the frame an entry adds to
    [frames], the message it adds to [log], and the rows it contributes. *)
Definition frame_of (e : entry) : option tz_frame :=
  match e.2 with
  | Table t => if has_structure t then Some (clean e.1 t) else None
  | Vanished | Unreadable _ => None
  end.

Definition message_of (e : entry) : option string :=
  match e.2 with
  | Table t => if has_structure t then None else Some ("Invalid structure in: " +:+ e.1)
  | Vanished => Some ("Missing file: " +:+ e.1)
  | Unreadable _ => None
  end.

(** The read of the entry raises nothing that the loop lets through. *)
Definition readable (e : entry) : Prop :=
  match e.2 with Unreadable _ => False | _ => True end.

Definition valid_rows (e : entry) : DataFrame := (default [] (frame_of e)).*1.

(** A line that the two [dropna] calls remove, when the [timestamp] column
    is read in the mode [m]. *)
Definition malformed (m : parse_mode) (r : raw_row) : Prop :=
  read_stamp m (raw_timestamp r) = None ∨ to_numeric (raw_kwh r) = NaN.

(** The order of the file names, and of the paths by their names. *)
Definition name_le (s1 s2 : string) : Prop := String.leb s1 s2 = true.

Definition path_le (e1 e2 : entry) : Prop := name_le e1.1 e2.1.

(** Two sorting algorithms that meet the contract of [sort_kind]: one keeps
    the input order of equal timestamps, the other reverses it. *)
Definition ts_leb (a b : option Z) : bool :=
  match a, b with
  | Some x, Some y => bool_decide (x ≤ y)
  | _, None => true
  | None, Some _ => false
  end.

Definition row_leb (r1 r2 : row) : bool := ts_leb (timestamp r1) (timestamp r2).

Definition row_ltb (r1 r2 : row) : bool := negb (row_leb r2 r1).

Definition stable_sort (df : DataFrame) : DataFrame := sort_by row_leb df.

Definition reversing_sort (df : DataFrame) : DataFrame := sort_by row_ltb df.

(** *** The sort that [sort_values] runs

    [sort_values("timestamp")] leaves the rows without a timestamp for the
    end and orders the others with numpy's [argsort(kind="quicksort")] on
    the nanoseconds of the column. That sort ([aquicksort] of
    [npysort/quicksort]) works on an array of row numbers: it partitions
    around the median of three while a partition has more than 17
    elements, finishes a partition by insertion sort, and sorts a
    partition by heapsort once it is deeper than twice the logarithm of the
    length. Pointers into the array are positions here. *)
Section Aquicksort.
Context (v : list Z).

(** [v[*p]] *)
Definition key_at (a : list nat) (p : nat) : Z := v !!! (a !!! p).

(** [INTP_SWAP] of the elements at [p] and [q]. *)
Definition swap (a : list nat) (p q : nat) : list nat :=
  <[q := a !!! p]> (<[p := a !!! q]> a).

Definition median_of_three (a : list nat) (pl pm pr : nat) : list nat :=
  let a := if key_at a pm <? key_at a pl then swap a pm pl else a in
  let a := if key_at a pr <? key_at a pm then swap a pr pm else a in
  if key_at a pm <? key_at a pl then swap a pm pl else a.

(** [do ++pi; while (v[*pi] < vp);] *)
Fixpoint scan_up (fuel : nat) (a : list nat) (vp : Z) (pi : nat) : nat :=
  match fuel with
  | O => S pi
  | S fuel' => if key_at a (S pi) <? vp then scan_up fuel' a vp (S pi) else S pi
  end.

(** [do --pj; while (vp < v[*pj]);] *)
Fixpoint scan_down (fuel : nat) (a : list nat) (vp : Z) (pj : nat) : nat :=
  match fuel with
  | O => pred pj
  | S fuel' =>
      if vp <? key_at a (pred pj) then scan_down fuel' a vp (pred pj) else pred pj
  end.

(** The loop of the partition: the array, and where [pi] stops. *)
Fixpoint exchange (fuel : nat) (a : list nat) (vp : Z) (pi pj : nat) : list nat * nat :=
  match fuel with
  | O => (a, pi)
  | S fuel' =>
      let pi := scan_up (length a) a vp pi in
      let pj := scan_down (length a) a vp pj in
      if (pj <=? pi)%nat then (a, pi)
      else exchange fuel' (swap a pi pj) vp pi pj
  end.

Definition partition (a : list nat) (pl pr : nat) : list nat * nat :=
  let pm := (pl + (pr - pl) / 2)%nat in
  let a := median_of_three a pl pm pr in
  let vp := key_at a pm in
  let a := swap a pm (pr - 1) in
  let '(a, pi) := exchange (length a) a vp pl (pr - 1) in
  (swap a pi (pr - 1), pi).

(** [while (pj > pl && vp < v[*pk]) *pj-- = *pk--;] *)
Fixpoint shift_up (fuel : nat) (a : list nat) (pl : nat) (vp : Z) (pj : nat)
  : list nat * nat :=
  match fuel with
  | O => (a, pj)
  | S fuel' =>
      if (pl <? pj)%nat && (vp <? key_at a (pj - 1))
      then shift_up fuel' (<[pj := a !!! (pj - 1)%nat]> a) pl vp (pj - 1)
      else (a, pj)
  end.

Definition insertion_sort (a : list nat) (pl pr : nat) : list nat :=
  foldl (λ a pi,
           let vi := a !!! pi in
           let '(a, pj) := shift_up (length a) a pl (v !!! vi) pi in
           <[pj := vi]> a)
        a (seq (pl + 1) (pr - pl)).

(** [aheapsort] on the [n] elements from [pl]: the heap is numbered from
    1, element [k] of the heap is at position [pl + k - 1]. *)
Fixpoint sift (fuel : nat) (a : list nat) (pl n tmp i j : nat) : list nat :=
  match fuel with
  | O => <[(pl + i - 1)%nat := tmp]> a
  | S fuel' =>
      if (j <=? n)%nat then
        let j := if (j <? n)%nat
                    && (key_at a (pl + j - 1) <? key_at a (pl + (j + 1) - 1))
                 then (j + 1)%nat else j in
        if v !!! tmp <? key_at a (pl + j - 1)
        then sift fuel' (<[(pl + i - 1)%nat := a !!! (pl + j - 1)%nat]> a)
               pl n tmp j (j + j)
        else <[(pl + i - 1)%nat := tmp]> a
      else <[(pl + i - 1)%nat := tmp]> a
  end.

Definition heapsort (a : list nat) (pl n : nat) : list nat :=
  let a := foldl (λ a l, sift n a pl n (a !!! (pl + l - 1)%nat) l (l + l))
             a (reverse (seq 1 (n / 2))) in
  foldl (λ a m,
           let tmp := a !!! (pl + m - 1)%nat in
           let a := <[(pl + m - 1)%nat := a !!! pl]> a in
           sift n a pl (m - 1) tmp 1 2)
        a (reverse (seq 2 (n - 1))).

(** The outer loop, with its stack of partitions still to sort and their
    depths. [fresh] tells that the partition [pl .. pr] has just been taken
    from the stack (or is the whole array): only then is its depth tested. *)
Fixpoint aquicksort_loop (fuel : nat) (a : list nat) (pl pr : nat) (cdepth : Z)
    (stack : list (nat * nat * Z)) (fresh : bool) : list nat :=
  match fuel with
  | O => a
  | S fuel' =>
      let pop (a : list nat) :=
        match stack with
        | [] => a
        | (pl', pr', d) :: stack' => aquicksort_loop fuel' a pl' pr' d stack' true
        end in
      if fresh && (cdepth <? 0) then pop (heapsort a pl (pr - pl + 1))
      else if (16 <? pr - pl)%nat then
        let '(a, pi) := partition a pl pr in
        let cdepth := cdepth - 1 in
        if (pi - pl <? pr - pi)%nat
        then aquicksort_loop fuel' a pl (pi - 1) cdepth
               ((pi + 1, pr, cdepth)%nat :: stack) false
        else aquicksort_loop fuel' a (pi + 1) pr cdepth
               ((pl, pi - 1, cdepth)%nat :: stack) false
      else pop (insertion_sort a pl pr)
  end.

(** [np.argsort(v, kind="quicksort")] *)
Definition aquicksort : list nat :=
  let n := length v in
  aquicksort_loop (4 * n + 4) (seq 0 n) 0 (n - 1)
    (2 * Z.log2 (Z.of_nat n)) [] true.
End Aquicksort.

#[global] Instance row_inhabited : Inhabited row :=
  populate {| building := None; timestamp := None; kwh := NaN |}.

(** [nargsort] of pandas: the rows with a timestamp, in the order of
    [argsort], then the rows without one. *)
Definition nargsort (ts : list (option Z)) : list nat :=
  let idx := seq 0 (length ts) in
  let non_nan_idx := filter (λ i, is_Some (ts !!! i)) idx in
  let nan_idx := filter (λ i, ¬ is_Some (ts !!! i)) idx in
  let non_nans := omap id ts in
  ((λ j, non_nan_idx !!! j) <$> aquicksort non_nans) ++ nan_idx.

(** [df.take(indexer)] *)
Definition take_rows (df : DataFrame) (indexer : list nat) : DataFrame :=
  (λ i, df !!! i) <$> indexer.

Definition sortedb (df : DataFrame) : bool :=
  match df with
  | [] => true
  | r :: df' => forallb (λ p, row_leb p.1 p.2) (zip df (df'))
  end.

(** The frame in the order of the quicksort. The order is checked to be
    one of all rows by ascending timestamp, which stands for the proof
    that the sort of numpy is one; were it not, the rows are put in order
    by insertion. *)
Definition quicksort (df : DataFrame) : DataFrame :=
  let indexer := nargsort (timestamp <$> df) in
  if bool_decide (sort_by Nat.leb indexer = seq 0 (length df))
     && sortedb (take_rows df indexer)
  then take_rows df indexer
  else stable_sort df.

(** ** Aggregator *)

(** [df.groupby("building")]: the groups are the distinct building names in
    sorted order; rows without a building name are left out ([dropna=True]);
    each group keeps its rows in frame order. *)
Definition group_keys (df : DataFrame) : list string :=
  sort_by String.leb (remove_dups (omap building df)).

Definition group (b : string) (df : DataFrame) : DataFrame :=
  filter (λ r, building r = Some b) df.

(** *** Building summary *)

Record summary_row : Type := SummaryRow {
  s_building : string;
  mean_kwh : float64;
  min_kwh : float64;
  max_kwh : float64;
  total_kwh : float64;
}.

Definition summarise (b : string) (g : DataFrame) : summary_row :=
  let vals := kwh <$> g in
  {| s_building := b;
     mean_kwh := pd_mean vals;
     min_kwh := pd_min vals;
     max_kwh := pd_max vals;
     total_kwh := pd_sum vals |}.

Definition building_wise_summary (df : DataFrame) : list summary_row :=
  (λ b, summarise b (group b df)) <$> group_keys df.

(** *** Resampling *)

Definition ns_per_day : Z := 86400 * 1000000000.

(** The calendar day of an instant, counted from 1970-01-01. *)
Definition day_of (t : Z) : Z := t `div` ns_per_day.

Definition day_label (d : Z) : Z := d * ns_per_day.

(** The week (Monday to Sunday) of an instant; 1970-01-05, day 4, was a
    Monday. The label of a week is the midnight that starts its Sunday. *)
Definition week_of (t : Z) : Z := (day_of t - 4) `div` 7.

Definition week_label (w : Z) : Z := (7 * w + 10) * ns_per_day.

(** The last instant of a week: the last nanosecond of its Sunday. *)
Definition week_end (w : Z) : Z := week_label w + ns_per_day - 1.

(** The last week that [resample("W")] makes a row for when the last
    reading is at [t]: the week of [t], and the week after it when [t] is
    the last instant of its week. ([resample] lays its edges up to the
    Sunday after the day of the last reading and then drops the last edge
    only if the edge before it lies after the last reading.) *)
Definition last_week_of (t : Z) : Z :=
  if decide (t = week_end (week_of t)) then week_of t + 1 else week_of t.

Definition list_min (x : Z) (l : list Z) : Z := foldl Z.min x l.
Definition list_max (x : Z) (l : list Z) : Z := foldl Z.max x l.

Section Resample.
Context (bucket last label : Z → Z).

Definition bucket_of (r : row) : option Z := bucket <$> timestamp r.

Definition in_bucket (i : Z) (g : DataFrame) : DataFrame :=
  filter (λ r, bucket_of r = Some i) g.

(** [.resample(rule).sum()] on one group: one row for every bucket from the
    bucket of the earliest reading to the last bucket of the latest one,
    with the sum of the readings that fall in it (0 when none does). *)
Definition resample_sum (b : string) (g : DataFrame) : DataFrame :=
  match omap timestamp g with
  | [] => []
  | t0 :: rest =>
      let lo := bucket (list_min t0 rest) in
      let hi := last (list_max t0 rest) in
      (λ i, {| building := Some b;
               timestamp := Some (label i);
               kwh := pd_sum (kwh <$> in_bucket i g) |})
        <$> seqZ lo (hi - lo + 1)
  end.

(** [df.groupby("building")["kwh"].resample(rule).sum().reset_index()]. *)
Definition resample_table (df : DataFrame) : DataFrame :=
  mjoin ((λ b, resample_sum b (group b df)) <$> group_keys df).

(** Bucket [i] lies between the bucket of a reading of building [b] and
    the last bucket of a reading of building [b]. *)
Definition spanned (df : DataFrame) (b : string) (i : Z) : Prop :=
  ∃ r1 r2 t1 t2,
    r1 ∈ df ∧ r2 ∈ df
    ∧ building r1 = Some b ∧ building r2 = Some b
    ∧ timestamp r1 = Some t1 ∧ timestamp r2 = Some t2
    ∧ bucket t1 ≤ i ≤ last t2.

(** The readings of building [b] that fall in bucket [i]. *)
Definition readings_in (df : DataFrame) (b : string) (i : Z) : DataFrame :=
  in_bucket i (group b df).

Definition resampled_row (df : DataFrame) (b : string) (i : Z) : row :=
  {| building := Some b;
     timestamp := Some (label i);
     kwh := pd_sum (kwh <$> readings_in df b i) |}.
End Resample.

(** The key of a row of a resampled table. *)
Definition period_key (r : row) : option string * option Z := (building r, timestamp r).

(** What the resampled table of a frame is: one row for each (building,
    bucket) from the first bucket in which the building has a reading to
    the last bucket of its last reading, whether or not the bucket holds a
    reading. *)
Definition dense_resample (bucket last label : Z → Z) (df out : DataFrame) : Prop :=
  NoDup (period_key <$> out)
  ∧ (∀ r, r ∈ out ↔ ∃ b i, spanned bucket last df b i ∧ r = resampled_row bucket label df b i)
  ∧ (∀ b i, readings_in bucket df b i ≠ [] → resampled_row bucket label df b i ∈ out)
  ∧ (∀ b i, spanned bucket last df b i → readings_in bucket df b i = [] →
       {| building := Some b; timestamp := Some (label i); kwh := fzero |} ∈ out).

(** A day gets a row when it lies between the days of two readings. *)
Definition calculate_daily_totals (df : DataFrame) : DataFrame :=
  resample_table day_of day_of day_label df.

Definition calculate_weekly_aggregates (df : DataFrame) : DataFrame :=
  resample_table week_of last_week_of week_label df.

(** ** Building registry *)

Record MeterReading : Type := mkMeterReading {
  mr_timestamp : option Z;
  mr_kwh : float64;
}.

(** A building name is whatever object the [building] cell of a row holds:
    a string, or the missing value, a float NaN. A dict compares strings by
    value. NaN differs from every value, itself included, so a dict finds a
    NaN key again only through the very same object: a missing name is
    known by the identity of its object. *)
Inductive key : Type :=
  | Named (s : string)
  | Unnamed (id : nat).

#[global] Instance key_eq_dec : EqDecision key.
Proof. solve_decision. Defined.

(** The name as the [building] column of a frame shows it. *)
Definition key_name (k : key) : option string :=
  match k with Named s => Some s | Unnamed _ => None end.

Record Building : Type := mkBuilding {
  name : key;
  meter_readings : list MeterReading;
}.

Record report : Type := Report {
  r_building : key;
  r_total_kwh : float64;
  r_mean_kwh : float64;
  r_max_kwh : float64;
}.

(** [float(sum(r.kwh for r in self.meter_readings))]: Python's [sum] adds
    from the left, starting from 0. *)
Definition calculate_total_consumption (b : Building) : float64 :=
  foldl fadd fzero (mr_kwh <$> meter_readings b).

Definition generate_report (b : Building) : result report :=
  match meter_readings b with
  | [] =>
      Return {| r_building := name b; r_total_kwh := fzero;
                r_mean_kwh := fzero; r_max_kwh := fzero |}
  | _ =>
      let vals := mr_kwh <$> meter_readings b in
      match np_max vals with
      | Raise e => Raise e
      | Return m =>
          Return {| r_building := name b; r_total_kwh := np_sum vals;
                    r_mean_kwh := np_mean vals; r_max_kwh := m |}
      end
  end.

(** The objects of a run: the [Building] instances, by location, and the
    [buildings] dict of the manager, in insertion order. *)
Abbreviation loc := nat.

Record BuildingManager : Type := mkBuildingManager {
  heap : list Building;
  buildings : list (key * loc);
}.

Definition new_manager : BuildingManager := {| heap := []; buildings := [] |}.

(** [self.buildings[name]] when [name in self.buildings]. *)
Fixpoint dict_get (k : key) (d : list (key * loc)) : option loc :=
  match d with
  | [] => None
  | (k', l) :: d' => if decide (k' = k) then Some l else dict_get k d'
  end.

Definition get_or_create (k : key) (m : BuildingManager) : loc * BuildingManager :=
  match dict_get k (buildings m) with
  | Some l => (l, m)
  | None =>
      let l := length (heap m) in
      (l, {| heap := heap m ++ [{| name := k; meter_readings := [] |}];
             buildings := buildings m ++ [(k, l)] |})
  end.

(** [b.add_reading(reading)] on the object at [l]. *)
Definition add_reading (l : loc) (r : MeterReading) (m : BuildingManager) : BuildingManager :=
  {| heap := alter (λ b, {| name := name b; meter_readings := meter_readings b ++ [r] |}) l (heap m);
     buildings := buildings m |}.

(** [row["building"]] for the row at position [i] of the frame. A frame
    does not determine which object a missing name is: a [building] column
    of strings holds the one [np.nan] object in each of its empty cells,
    and a column that pandas keeps as floats (a source whose [building]
    cells are all empty) gives a new float object for every cell that is
    read. [ids i] is the identity of the object that row [i] yields. *)
Definition row_key (ids : nat → nat) (i : nat) (r : row) : key :=
  match building r with
  | Some s => Named s
  | None => Unnamed (ids i)
  end.

(** Every missing name is the one [np.nan] object. *)
Definition shared : nat → nat := λ _, 0%nat.

(** Every missing name is an object of its own. *)
Definition boxed : nat → nat := λ i, i.

(** [df.iterrows()], each row with its name object. *)
Definition iterrows (ids : nat → nat) (df : DataFrame) : list (key * row) :=
  imap (λ i r, (row_key ids i r, r)) df.

Definition load_row (m : BuildingManager) (kr : key * row) : BuildingManager :=
  let '(b, m') := get_or_create kr.1 m in
  add_reading b {| mr_timestamp := timestamp kr.2; mr_kwh := kwh kr.2 |} m'.

Definition load_from_df (ids : nat → nat) (df : DataFrame) (m : BuildingManager)
    : BuildingManager :=
  foldl load_row m (iterrows ids df).

Fixpoint collect {A} (l : list (result A)) : result (list A) :=
  match l with
  | [] => Return []
  | Raise e :: _ => Raise e
  | Return a :: l' =>
      match collect l' with
      | Raise e => Raise e
      | Return as' => Return (a :: as')
      end
  end.

#[global] Instance Building_inhabited : Inhabited Building :=
  populate {| name := Unnamed 0; meter_readings := [] |}.

(** The rows of [summary_table], one per entry of the dict, in its order. *)
Definition summary_table (m : BuildingManager) : result (list report) :=
  collect ((λ kv, generate_report (heap m !!! kv.2)) <$> buildings m).

(** ** Views of the registry *)

(** No entry of the dict refers outside the heap. *)
Definition wf (m : BuildingManager) : Prop :=
  Forall (λ kv, (kv.2 < length (heap m))%nat) (buildings m).

Definition reading_of (r : row) : MeterReading :=
  {| mr_timestamp := timestamp r; mr_kwh := kwh r |}.

(** The readings of the rows whose name object is [k], in frame order. *)
Definition readings_of (k : key) (rows : list (key * row)) : list MeterReading :=
  (reading_of ∘ snd) <$> filter (λ kr, kr.1 = k) rows.

(** The state of a manager that has loaded the rows: one dict entry per
    name object, each referring to the object that holds the readings of
    the rows of that name. *)
Record loaded (rows : list (key * row)) (m : BuildingManager) : Prop := {
  loaded_NoDup : NoDup (buildings m).*1;
  loaded_keys : ∀ k, k ∈ (buildings m).*1 ↔ k ∈ rows.*1;
  loaded_objects : ∀ k l, (k, l) ∈ buildings m →
    heap m !! l = Some {| name := k; meter_readings := readings_of k rows |};
}.

(** A row of the table summary, as a report of the registry: the same
    columns without the minimum. *)
Definition report_of_summary (s : summary_row) : report :=
  {| r_building := Named (s_building s);
     r_total_kwh := total_kwh s;
     r_mean_kwh := mean_kwh s;
     r_max_kwh := max_kwh s |}.

(** ** Sample inputs *)

(** A source whose only line has no readable timestamp. *)
Definition dir_all_malformed : directory :=
  [("meter.csv",
    Table {| columns := ["timestamp"; "kwh"];
             lines := [RawRow Garbled (Parsed (of_Z 5)) None] |})].

(** A source with a negative and an infinite reading. *)
Definition dir_negative : directory :=
  [("meter.csv",
    Table {| columns := ["timestamp"; "kwh"];
             lines := [RawRow (Stamp naive 0) (Parsed (of_Z (-5))) None;
                       RawRow (Stamp naive 1) (Parsed PInf) None] |})].

(** A source with two readings at the same instant. *)
Definition dir_ties : directory :=
  [("meter.csv",
    Table {| columns := ["timestamp"; "kwh"];
             lines := [RawRow (Stamp naive 7) (Parsed (of_Z 1)) None;
                       RawRow (Stamp naive 7) (Parsed (of_Z 2)) None] |})].

(** A file that has vanished, a file that is no CSV file, and a source. *)
Definition dir_mixed : directory :=
  [("b.csv", Vanished);
   ("notes.txt", Table (CsvTable ["timestamp"; "kwh"] [RawRow (Stamp naive 0) (Parsed (of_Z 1)) None]));
   ("a.csv", Table (CsvTable ["timestamp"; "kwh"] [RawRow (Stamp naive 3) (Parsed (of_Z 2)) None]))].

(** A source with one reading, and an empty file. *)
Definition dir_empty_file : directory :=
  [("a.csv", Table (CsvTable ["timestamp"; "kwh"] [RawRow (Stamp naive 3) (Parsed (of_Z 2)) None]));
   ("e.csv", Unreadable "No columns to parse from file")].

(** A source with tz-aware timestamps and a source with tz-naive ones. *)
Definition dir_two_zones : directory :=
  [("a.csv", Table (CsvTable ["timestamp"; "kwh"]
               [RawRow (Stamp zulu 0) (Parsed (of_Z 1)) None]));
   ("b.csv", Table (CsvTable ["timestamp"; "kwh"]
               [RawRow (Stamp naive 1) (Parsed (of_Z 2)) None]))].

(** Two sources whose readings are not in the order of time. *)
Definition dir_out_of_order : directory :=
  [("a.csv", Table (CsvTable ["timestamp"; "kwh"]
               [RawRow (Stamp naive 9) (Parsed (of_Z 1)) None;
                RawRow (Stamp naive 2) (Parsed (of_Z 2)) None]));
   ("b.csv", Table (CsvTable ["timestamp"; "kwh"]
               [RawRow (Stamp naive 5) (Parsed (of_Z 3)) None]))].

(** Two vanished files, a table without a [timestamp] column and a source,
    listed in the reverse order of their names. *)
Definition dir_reversed : directory :=
  [("d.csv", Vanished);
   ("c.csv", Table (CsvTable ["kwh"] []));
   ("b.csv", Table (CsvTable ["timestamp"; "kwh"]
               [RawRow (Stamp naive 3) (Parsed (of_Z 2)) None]));
   ("a.csv", Vanished)].

(** A source with a [building] column and an empty cell in it. *)
Definition dir_unnamed : directory :=
  [("meter.csv",
    Table {| columns := ["timestamp"; "kwh"; "building"];
             lines := [RawRow (Stamp naive 0) (Parsed (of_Z 5)) None] |})].

Definition two_buildings : DataFrame :=
  [Row (Some "B") (Some 0) (of_Z 10);
   Row (Some "A") (Some 1) (of_Z 5);
   Row (Some "A") (Some 2) (of_Z 7)].

(** A building read on day 0 and on day 2. *)
Definition frame_with_gap : DataFrame :=
  [Row (Some "A") (Some 0) (of_Z 1);
   Row (Some "A") (Some (2 * ns_per_day)) (of_Z 2)].

(** The scenario of the specification: "A" with 24 hourly readings of 5 kWh,
    "B" with a line without a readable timestamp and a reading of 10 kWh,
    "C" gone by the time it is read. *)
Definition ns_per_hour : Z := 3600 * 1000000000.

Definition scenario : directory :=
  [("C.csv", Vanished);
   ("B.csv", Table (CsvTable ["timestamp"; "kwh"]
               [RawRow Garbled (Parsed (of_Z 3)) None;
                RawRow (Stamp naive (5 * ns_per_hour)) (Parsed (of_Z 10)) None]));
   ("A.csv", Table (CsvTable ["timestamp"; "kwh"]
               ((λ h, RawRow (Stamp naive (h * ns_per_hour)) (Parsed (of_Z 5)) None) <$> seqZ 0 24)))].

(** The valid rows of the scenario, as they are concatenated. *)
Definition scenario_rows : DataFrame :=
  (pd_concat (omap frame_of (sorted (glob_csv scenario)))).*1.
(** ** Views of the validation *)

(** A line that both [dropna] calls keep, when the [timestamp] column is
    read in the mode [m]. *)
Definition well_formed (m : parse_mode) (r : raw_row) : Prop :=
  is_Some (read_stamp m (raw_timestamp r)) ∧ to_numeric (raw_kwh r) ≠ NaN.

#[global] Instance well_formed_dec m r : Decision (well_formed m r).
Proof. unfold well_formed. apply _. Defined.

(** The row that a kept line becomes. *)
Definition validated (m : parse_mode) (name : string) (cols : list string)
    (r : raw_row) : tz_row :=
  ({| building := if bool_decide ("building" ∈ cols) then raw_building r
                  else Some (stem name);
      timestamp := fst <$> read_stamp m (raw_timestamp r);
      kwh := to_numeric (raw_kwh r) |},
   from_option snd false (read_stamp m (raw_timestamp r))).


(** ** Further views of the loader *)

(** The error that the read of an entry raises past the loop. *)
Definition read_error_of (e : entry) : option exn :=
  match e.2 with Unreadable msg => Some (ReadError msg) | _ => None end.

(** An entry that the loop skips with a message: a file that is gone, or a
    table without one of the two columns. *)
Definition skipped (e : entry) : Prop :=
  match e.2 with
  | Vanished => True
  | Unreadable _ => False
  | Table t => has_structure t = false
  end.

(** Whether the timestamp of each valid row of an entry is tz-aware. *)
Definition zones_of (e : entry) : list bool := (default [] (frame_of e)).*2.

(** The valid rows of the sources hold a tz-aware and a tz-naive
    timestamp. *)
Definition mixed_zones (d : directory) : Prop :=
  (∃ e, e ∈ glob_csv d ∧ true ∈ zones_of e)
  ∧ (∃ e, e ∈ glob_csv d ∧ false ∈ zones_of e).

(** The frame that [load_and_merge] returns, without the messages. *)
Definition merged_of (r : result (DataFrame * list string)) : result DataFrame :=
  match r with Return (m, _) => Return m | Raise x => Raise x end.

(** ** Further views of the registry *)

(** The state of a manager that the operations keep: the keys of the dict
    are distinct (two missing names are distinct keys when they are two
    objects), and each entry refers to an object of its name. *)
Record consistent (m : BuildingManager) : Prop := {
  consistent_keys : NoDup (buildings m).*1;
  consistent_objects : ∀ k l, (k, l) ∈ buildings m →
    ∃ b, heap m !! l = Some b ∧ name b = k;
}.

(** The distinct elements of a list, in the order of their first
    occurrence. *)
Fixpoint first_occurrences {A} `{EqDecision A} (l : list A) : list A :=
  match l with
  | [] => []
  | x :: l' => x :: filter (λ y, y ≠ x) (first_occurrences l')
  end.


(** ** The text summary

    [write_summary] picks the figures of the report and prints them. The
    model gives the figures; their rendering as text (the [.2f] format,
    the clock of the [Generated:] line) is left out. A lookup that fails
    raises, which is [None]. *)

(** [Series.idxmax()]: the position of the first of the largest numbers of
    the column. A column without a number has none: the call raises, or
    gives a missing label that the lookup after it rejects. *)
Definition idxmax (l : list float64) : option nat :=
  match filter (λ x, notna x = true) l with
  | [] => None
  | _ => fst <$> list_find (λ x, x = pd_max l) l
  end.

(** The order of [sort_values("total_kwh", ascending=False)]: larger totals
    first, missing totals last. *)
Definition total_ge (r1 r2 : report) : Prop :=
  match r_total_kwh r1, r_total_kwh r2 with
  | _, NaN => True
  | NaN, _ => False
  | x, y => fle y x = true
  end.

(** The call has the default [kind="quicksort"]: as for [sort_kind], the
    order of reports with equal totals is the algorithm's own. *)
Record sort_kind_desc : Type := SortKindDesc {
  sort_values_desc : list report → list report;
  sort_values_desc_perm : ∀ l, sort_values_desc l ≡ₚ l;
  sort_values_desc_sorted : ∀ l, Sorted total_ge (sort_values_desc l);
}.

(** The sum of the rows of a resampled table that carry the label [t]: the
    consumption of all buildings in that period. *)
Definition campus_total (table : DataFrame) (t : Z) : float64 :=
  pd_sum (kwh <$> filter (λ r, timestamp r = Some t) table).

(** [table.groupby("timestamp")["kwh"].sum().reset_index()]: one row per
    label, in ascending order. *)
Definition trend (table : DataFrame) : list (Z * float64) :=
  (λ t, (t, campus_total table t)) <$> sort_by Z.leb (remove_dups (omap timestamp table)).

(** [trend.loc[trend["kwh"].idxmax(), "timestamp"]]. *)
Definition peak_period (table : DataFrame) : option Z :=
  let tr := trend table in
  i ← idxmax tr.*2; fst <$> tr !! i.

Record figures : Type := Figures {
  total_campus : float64;
  top_building : key;
  top_building_kwh : float64;
  peak_time : option Z;
  peak_building : option string;
  peak_value : float64;
  daily_peak_day : Z;
  weekly_peak_week : Z;
}.

Definition write_summary (K : sort_kind_desc) (df : DataFrame)
    (building_summary : list report) (daily weekly : DataFrame) : option figures :=
  top_building_row ← head (sort_values_desc K building_summary);
  peak_idx ← idxmax (kwh <$> df);
  peak_row ← df !! peak_idx;
  day ← peak_period daily;
  week ← peak_period weekly;
  Some {| total_campus := pd_sum (kwh <$> df);
          top_building := r_building top_building_row;
          top_building_kwh := r_total_kwh top_building_row;
          peak_time := timestamp peak_row;
          peak_building := building peak_row;
          peak_value := kwh peak_row;
          daily_peak_day := day;
          weekly_peak_week := week |}.

(** The call of [write_summary] in [main] (line 213), with the tables that
    lines 201-207 compute from the merged frame. *)
Definition main_summary (K : sort_kind_desc) (ids : nat → nat) (df : DataFrame)
    : option figures :=
  match summary_table (load_from_df ids df new_manager) with
  | Raise _ => None
  | Return building_summary_oop =>
      write_summary K df building_summary_oop
        (calculate_daily_totals df) (calculate_weekly_aggregates df)
  end.

(** A sorting algorithm that meets the contract of [sort_kind_desc]. *)
Definition total_geb (r1 r2 : report) : bool :=
  match r_total_kwh r1, r_total_kwh r2 with
  | _, NaN => true
  | NaN, _ => false
  | x, y => fle y x
  end.

(** A reading that is a number and not negative: zero, a positive number
    or the positive infinity. *)
Definition not_negative (x : float64) : Prop :=
  match x with
  | Fin q => (0 <= q)%Qc
  | PInf => True
  | NInf | NaN => False
  end.

(** * Properties *)

(** ** Sorting *)

Section SortByFacts.
Context {A : Type} (before : A → A → bool) (R : relation A).
Hypothesis before_true : ∀ x y, before x y = true → R x y.
Hypothesis before_false : ∀ x y, before x y = false → R y x.

Lemma insert_by_perm x l : insert_by before x l ≡ₚ x :: l.
Proof.
  induction l as [|y l IH]; simpl; [done|].
  destruct (before x y); [done|].
  by rewrite IH, Permutation_swap.
Qed.

Lemma sort_by_perm l : sort_by before l ≡ₚ l.
Proof.
  induction l as [|x l IH]; simpl; [done|].
  unfold sort_by in *. simpl. by rewrite insert_by_perm, IH.
Qed.

Lemma insert_by_hdrel z x l :
  R z x → HdRel R z l → HdRel R z (insert_by before x l).
Proof.
  intros Hzx Hl. destruct l as [|y l]; simpl; [by constructor|].
  destruct (before x y); constructor; [done|].
  by inversion Hl.
Qed.

Lemma insert_by_sorted x l : Sorted R l → Sorted R (insert_by before x l).
Proof.
  induction 1 as [|y l Hl IH Hy]; simpl.
  - repeat constructor.
  - destruct (before x y) eqn:E.
    + constructor; [by constructor|]. constructor. by apply before_true.
    + constructor; [done|]. apply insert_by_hdrel; [|done].
      by apply before_false.
Qed.

Lemma sort_by_sorted l : Sorted R (sort_by before l).
Proof.
  induction l as [|x l IH]; [constructor|].
  apply insert_by_sorted, IH.
Qed.
End SortByFacts.

Lemma ts_leb_le a b : ts_leb a b = true ↔ ts_le a b.
Proof.
  destruct a, b; simpl; rewrite ?bool_decide_eq_true; intuition congruence.
Qed.

Lemma ts_le_total a b : ts_le a b ∨ ts_le b a.
Proof. destruct a, b; simpl; auto; lia. Qed.

#[global] Instance ts_le_trans : Transitive ts_le.
Proof. intros [x|] [y|] [z|]; simpl; try done; lia. Qed.

#[global] Instance row_le_trans : Transitive row_le.
Proof. intros x y z. unfold row_le. apply ts_le_trans. Qed.

Lemma row_leb_true x y : row_leb x y = true → row_le x y.
Proof. apply ts_leb_le. Qed.

Lemma row_leb_false x y : row_leb x y = false → row_le y x.
Proof.
  unfold row_leb, row_le. intros E.
  destruct (ts_le_total (timestamp x) (timestamp y)) as [H|H]; [|done].
  apply ts_leb_le in H. congruence.
Qed.

Lemma row_ltb_true x y : row_ltb x y = true → row_le x y.
Proof. unfold row_ltb. intros E%negb_true_iff. by apply row_leb_false. Qed.

Lemma row_ltb_false x y : row_ltb x y = false → row_le y x.
Proof. unfold row_ltb. intros E%negb_false_iff. by apply row_leb_true. Qed.

(** The two algorithms as sort kinds. *)
Definition stable_kind : sort_kind :=
  {| sort_values := stable_sort;
     sort_values_perm := sort_by_perm row_leb;
     sort_values_sorted := sort_by_sorted row_leb row_le row_leb_true row_leb_false |}.

Definition reversing_kind : sort_kind :=
  {| sort_values := reversing_sort;
     sort_values_perm := sort_by_perm row_ltb;
     sort_values_sorted := sort_by_sorted row_ltb row_le row_ltb_true row_ltb_false |}.

(** *** The quicksort as a sort kind *)

Lemma take_rows_all (df : DataFrame) : take_rows df (seq 0 (length df)) = df.
Proof.
  unfold take_rows. apply list_eq. intros i.
  rewrite list_lookup_fmap.
  destruct (decide (i < length df)%nat) as [Hi|Hi].
  - rewrite lookup_seq_lt by done. simpl.
    destruct (lookup_lt_is_Some_2 df i Hi) as [r Hr].
    by rewrite Hr, (list_lookup_total_correct _ _ _ Hr).
  - rewrite lookup_seq_ge by lia. simpl. symmetry.
    apply lookup_ge_None_2. lia.
Qed.

Lemma sortedb_Sorted (df : DataFrame) : sortedb df = true → Sorted row_le df.
Proof.
  destruct df as [|r df]; [constructor|]. unfold sortedb.
  revert r. induction df as [|r' df IH]; intros r; simpl.
  - repeat constructor.
  - intros [H1 H2]%andb_true_iff. constructor; [by apply IH|].
    constructor. by apply row_leb_true.
Qed.

Lemma quicksort_perm df : quicksort df ≡ₚ df.
Proof.
  unfold quicksort.
  destruct (bool_decide _ && _) eqn:E; [|apply (sort_by_perm row_leb)].
  apply andb_true_iff in E as [E%bool_decide_eq_true _].
  transitivity (take_rows df (seq 0 (length df))); [|by rewrite take_rows_all].
  unfold take_rows. apply fmap_Permutation.
  by rewrite <-E, (sort_by_perm Nat.leb).
Qed.

Lemma quicksort_sorted df : Sorted row_le (quicksort df).
Proof.
  unfold quicksort.
  destruct (bool_decide _ && _) eqn:E.
  - apply andb_true_iff in E as [_ E]. by apply sortedb_Sorted.
  - apply (sort_by_sorted row_leb row_le row_leb_true row_leb_false).
Qed.

(** The sort kind of the code. *)
Definition quicksort_kind : sort_kind :=
  {| sort_values := quicksort;
     sort_values_perm := quicksort_perm;
     sort_values_sorted := quicksort_sorted |}.

(** ** Sorting, filtering and the order of the input *)

Section SortByOrder.
Context {A : Type} (before : A → A → bool).
Hypothesis before_trans :
  ∀ x y z, before x y = true → before y z = true → before x z = true.
Hypothesis before_total : ∀ x y, before x y = true ∨ before y x = true.

#[local] Abbreviation R := (λ x y : A, before x y = true).

Lemma sort_by_strongly_sorted l : StronglySorted R (sort_by before l).
Proof.
  apply Sorted_StronglySorted.
  - intros x y z. apply before_trans.
  - apply (sort_by_sorted before R); [done|].
    intros x y E. destruct (before_total x y); congruence.
Qed.

Lemma insert_by_head x l :
  Forall (λ z, before x z = true) l → insert_by before x l = x :: l.
Proof. destruct 1 as [|z l Hz _]; simpl; [done|]. by rewrite Hz. Qed.

Lemma insert_by_filter (P : A → Prop) `{∀ x, Decision (P x)} x l :
  StronglySorted R l →
  filter P (insert_by before x l)
  = if decide (P x) then insert_by before x (filter P l) else filter P l.
Proof.
  induction 1 as [|y l Hl IH Hy]; simpl.
  - rewrite filter_cons, filter_nil. by case_decide.
  - destruct (before x y) eqn:E.
    + destruct (decide (P x)) as [Hx|Hx].
      * rewrite (filter_cons_True P x) by done.
        destruct (decide (P y)) as [Hpy|Hpy].
        -- rewrite !(filter_cons_True P y) by done. simpl. by rewrite E.
        -- rewrite !(filter_cons_False P y) by done.
           rewrite insert_by_head; [done|].
           apply Forall_forall. intros z [_ Hz]%list_elem_of_filter.
           rewrite Forall_forall in Hy. eauto.
      * by rewrite (filter_cons_False P x) by done.
    + destruct (decide (P y)) as [Hpy|Hpy].
      * rewrite !(filter_cons_True P y), IH by done.
        destruct (decide (P x)); [|done]. simpl. by rewrite E.
      * by rewrite !(filter_cons_False P y), IH by done.
Qed.

(** Sorting the kept elements is keeping the elements of the sorted list. *)
Lemma sort_by_filter (P : A → Prop) `{∀ x, Decision (P x)} l :
  filter P (sort_by before l) = sort_by before (filter P l).
Proof.
  induction l as [|x l IH]; [done|].
  change (sort_by before (x :: l)) with (insert_by before x (sort_by before l)).
  rewrite insert_by_filter by apply sort_by_strongly_sorted.
  rewrite filter_cons, IH. by case_decide.
Qed.

Lemma strongly_sorted_unique l1 l2 :
  StronglySorted R l1 → StronglySorted R l2 → l1 ≡ₚ l2 →
  (∀ x y, x ∈ l1 → y ∈ l1 → before x y = true → before y x = true → x = y) →
  l1 = l2.
Proof.
  intros H1. revert l2. induction H1 as [|a t1 Ht1 IH Ha]; intros l2 H2 Hp Hanti.
  - by apply Permutation_nil_l in Hp.
  - destruct H2 as [|b t2 Ht2 Hb].
    { symmetry in Hp. by apply Permutation_nil_l in Hp. }
    assert (a = b) as ->.
    { assert (b ∈ a :: t1) as Hb1 by (rewrite Hp; apply list_elem_of_here).
      assert (a ∈ b :: t2) as Ha2 by (rewrite <-Hp; apply list_elem_of_here).
      apply elem_of_cons in Hb1 as [->|Hb1]; [done|].
      apply elem_of_cons in Ha2 as [->|Ha2]; [done|].
      rewrite Forall_forall in Ha, Hb.
      apply Hanti; [apply list_elem_of_here|by apply list_elem_of_further|eauto..]. }
    f_equal. apply IH; [done|by apply (inj (cons b))|].
    intros x y Hx Hy. apply Hanti; by apply list_elem_of_further.
Qed.

(** Where the order tells its elements apart, the sorted list does not
    depend on the order of the input. *)
Lemma sort_by_unique l l' :
  l ≡ₚ l' →
  (∀ x y, x ∈ l → y ∈ l → before x y = true → before y x = true → x = y) →
  sort_by before l = sort_by before l'.
Proof.
  intros Hp Hanti. apply strongly_sorted_unique.
  - apply sort_by_strongly_sorted.
  - apply sort_by_strongly_sorted.
  - by rewrite !sort_by_perm.
  - intros x y. rewrite !sort_by_perm. apply Hanti.
Qed.
End SortByOrder.

Lemma omap_cons_eq {A B} (f : A → option B) x (l : list A) :
  omap f (x :: l) = match f x with Some y => y :: omap f l | None => omap f l end.
Proof. done. Qed.

Lemma omap_filter_Some {A B} (f : A → option B) (l : list A) :
  omap f l = omap f (filter (λ x, is_Some (f x)) l).
Proof.
  induction l as [|x l IH]; [done|].
  destruct (f x) eqn:E.
  - rewrite filter_cons_True by (rewrite E; by eexists).
    by rewrite !omap_cons_eq, E, IH.
  - rewrite filter_cons_False by (rewrite E; by intros [? ?]).
    by rewrite omap_cons_eq, E.
Qed.

Lemma omap_nil_iff {A B} (f : A → option B) l :
  omap f l = [] ↔ Forall (λ x, f x = None) l.
Proof.
  induction l as [|x l IH]; simpl.
  - split; [constructor|done].
  - destruct (f x) eqn:E.
    + split; [done|]. intros H. inversion H. congruence.
    + rewrite IH. split; [by constructor|]. by inversion 1.
Qed.

(** ** Order of file names *)

Lemma string_leb_trans s1 s2 s3 :
  String.leb s1 s2 = true → String.leb s2 s3 = true → String.leb s1 s3 = true.
Proof.
  unfold String.leb.
  revert s2 s3. induction s1 as [|c1 s1 IH]; intros [|c2 s2] [|c3 s3]; simpl; try done.
  unfold Ascii.compare.
  destruct (N.compare_spec (N_of_ascii c1) (N_of_ascii c2)) as [E12|L12|G12]; [| |done].
  - rewrite E12.
    destruct (N.compare_spec (N_of_ascii c2) (N_of_ascii c3)); [|done..].
    apply IH.
  - destruct (N.compare_spec (N_of_ascii c2) (N_of_ascii c3)) as [E23|L23|G23]; [| |done].
    + rewrite <-E23. by rewrite (proj2 (N.compare_lt_iff _ _) L12).
    + intros _ _. assert (N_of_ascii c1 < N_of_ascii c3)%N as L by lia.
      by rewrite (proj2 (N.compare_lt_iff _ _) L).
Qed.

#[global] Instance name_le_trans : Transitive name_le.
Proof. intros x y z. apply string_leb_trans. Qed.

Lemma string_leb_false s1 s2 : String.leb s1 s2 = false → String.leb s2 s1 = true.
Proof. destruct (String.leb_total s1 s2); congruence. Qed.

#[global] Instance path_le_trans : Transitive path_le.
Proof. intros x y z. apply string_leb_trans. Qed.

Lemma path_leb_trans (x y z : entry) :
  path_leb x y = true → path_leb y z = true → path_leb x z = true.
Proof. apply string_leb_trans. Qed.

Lemma path_leb_total (x y : entry) : path_leb x y = true ∨ path_leb y x = true.
Proof. apply String.leb_total. Qed.

Lemma sorted_perm d : sorted d ≡ₚ d.
Proof. apply sort_by_perm. Qed.

Lemma sorted_by_name d : StronglySorted path_le (sorted d).
Proof.
  apply Sorted_StronglySorted; [apply _|].
  apply (sort_by_sorted path_leb path_le); unfold path_leb, path_le, name_le.
  - auto.
  - intros x y. apply string_leb_false.
Qed.

Lemma entry_of_name (d : directory) x y :
  NoDup d.*1 → x ∈ d → y ∈ d → x.1 = y.1 → x = y.
Proof.
  induction d as [|[n f] d IH]; simpl; [by intros _ ?%elem_of_nil|].
  rewrite NoDup_cons. intros [Hn Hnd]. rewrite !elem_of_cons.
  intros [->|Hx] [->|Hy] E; simpl in *; try done.
  - destruct Hn. apply list_elem_of_fmap. exists y. by rewrite <-E.
  - destruct Hn. apply list_elem_of_fmap. exists x. by rewrite E.
  - by apply IH.
Qed.

(** The entries of a directory in the order of their names: there is one
    such list when the names are distinct. *)
Lemma sorted_unique (d es : directory) :
  NoDup d.*1 → es ≡ₚ d → StronglySorted path_le es → es = sorted d.
Proof.
  intros Hnd Hp Hs.
  apply (strongly_sorted_unique path_leb); [done|apply sorted_by_name| |].
  - by rewrite sorted_perm.
  - intros x y Hx Hy H1 H2. rewrite Hp in Hx, Hy.
    apply (entry_of_name d); [done..|]. by apply String.leb_antisym.
Qed.

Lemma group_keys_sorted df : StronglySorted name_le (group_keys df).
Proof.
  apply Sorted_StronglySorted; [apply _|].
  apply (sort_by_sorted String.leb name_le); unfold name_le; [auto|].
  intros x y. apply string_leb_false.
Qed.

Lemma group_keys_NoDup df : NoDup (group_keys df).
Proof.
  unfold group_keys. rewrite sort_by_perm. apply NoDup_remove_dups.
Qed.

Lemma elem_of_group_keys df b :
  b ∈ group_keys df ↔ ∃ r, r ∈ df ∧ building r = Some b.
Proof.
  unfold group_keys. rewrite sort_by_perm, elem_of_remove_dups.
  apply list_elem_of_omap.
Qed.


Lemma glob_csv_keep d1 d2 e :
  endswith e.1 ".csv" = true →
  glob_csv (d1 ++ e :: d2) = glob_csv d1 ++ e :: glob_csv d2.
Proof.
  intros He. unfold glob_csv. by rewrite filter_app, filter_cons_True.
Qed.

Lemma glob_csv_app d1 d2 : glob_csv (d1 ++ d2) = glob_csv d1 ++ glob_csv d2.
Proof. apply filter_app. Qed.

(** An entry that contributes nothing to a view leaves the view of the
    sorted directory as it is. *)
Lemma omap_sorted_skip {B} (f : entry → option B) d1 d2 e :
  f e = None → omap f (sorted (d1 ++ e :: d2)) = omap f (sorted (d1 ++ d2)).
Proof.
  intros He. rewrite (omap_filter_Some f (sorted (d1 ++ e :: d2))).
  rewrite (omap_filter_Some f (sorted (d1 ++ d2))). unfold sorted.
  rewrite !(sort_by_filter path_leb path_leb_trans path_leb_total).
  rewrite !filter_app, filter_cons_False; [done|].
  rewrite He. by intros [? ?].
Qed.

(** ** The loop of the loader *)

(** The loop, whatever the entries: the first read error ends it, and
    without one the frames and the messages of the entries are collected
    in the order of the entries. *)
Lemma load_loop_spec es frames log :
  load_loop (frames, log) es =
  match omap read_error_of es with
  | x :: _ => Raise x
  | [] => Return (frames ++ omap frame_of es, log ++ omap message_of es)
  end.
Proof.
  revert frames log. induction es as [|[n f] es IH]; intros frames log.
  - simpl. by rewrite !app_nil_r.
  - cbn [load_loop]. rewrite !omap_cons_eq.
    unfold load_step, read_error_of at 1, frame_of at 1, message_of at 1.
    cbn [fst snd]. destruct f as [|msg|t].
    + rewrite IH. destruct (omap read_error_of es); [|done].
      by rewrite <-app_assoc.
    + done.
    + destruct (has_structure t); rewrite IH;
        destruct (omap read_error_of es); try done; by rewrite <-app_assoc.
Qed.

Lemma load_and_merge_spec K d :
  load_and_merge K d =
  match omap read_error_of (sorted (glob_csv d)) with
  | x :: _ => Raise x
  | [] =>
      match omap frame_of (sorted (glob_csv d)) with
      | [] => Raise no_data
      | fs =>
          if comparable (pd_concat fs)
          then Return (sort_values K (pd_concat fs).*1,
                       omap message_of (sorted (glob_csv d)))
          else Raise tz_error
      end
  end.
Proof.
  unfold load_and_merge. rewrite load_loop_spec.
  destruct (omap read_error_of _); [|done]. simpl.
  by destruct (omap frame_of _).
Qed.

Lemma read_error_iff e : read_error_of e = None ↔ readable e.
Proof. unfold read_error_of, readable. by destruct e as [n [|msg|t]]. Qed.

Lemma no_read_error_iff d :
  omap read_error_of (sorted (glob_csv d)) = [] ↔ Forall readable (glob_csv d).
Proof.
  rewrite omap_nil_iff, sorted_perm. apply Forall_proper; [|done].
  intros e. apply read_error_iff.
Qed.

Lemma read_errors d x :
  x ∈ omap read_error_of (sorted (glob_csv d)) →
  ∃ n msg, x = ReadError msg ∧ (n, Unreadable msg) ∈ glob_csv d.
Proof.
  intros ([n f] & He & E)%list_elem_of_omap. rewrite sorted_perm in He.
  unfold read_error_of in E. simpl in E. destruct f as [|msg|t]; [done| |done].
  injection E as <-. eauto.
Qed.

Lemma no_frame_iff d :
  omap frame_of (sorted (glob_csv d)) = [] ↔ Forall (λ e, frame_of e = None) (glob_csv d).
Proof. by rewrite omap_nil_iff, sorted_perm. Qed.

Lemma load_and_merge_Return K d m log :
  load_and_merge K d = Return (m, log) →
  m = sort_values K (pd_concat (omap frame_of (sorted (glob_csv d)))).*1
  ∧ log = omap message_of (sorted (glob_csv d))
  ∧ comparable (pd_concat (omap frame_of (sorted (glob_csv d)))) = true.
Proof.
  rewrite load_and_merge_spec.
  destruct (omap read_error_of _); [|done].
  destruct (omap frame_of _) as [|f fs]; [done|].
  cbn zeta. destruct (comparable _); [|done]. by intros [= <- <-].
Qed.

(** ** Time zones *)

Lemma forallb_false {A} (f : A → bool) (l : list A) :
  forallb f l = false ↔ ∃ x, x ∈ l ∧ f x = false.
Proof.
  induction l as [|y l IH]; simpl.
  - split; [done|]. by intros (x & ?%elem_of_nil & _).
  - rewrite andb_false_iff, IH. split.
    + intros [Hy|(x & Hx & Hf)]; [exists y|exists x]; split; try done.
      * apply list_elem_of_here.
      * by apply list_elem_of_further.
    + intros (x & [->|Hx]%elem_of_cons & Hf); [by left|right; eauto].
Qed.

Lemma comparable_false (df : tz_frame) :
  comparable df = false ↔ true ∈ df.*2 ∧ false ∈ df.*2.
Proof.
  unfold comparable. rewrite orb_false_iff, !forallb_false, !list_elem_of_fmap.
  split.
  - intros [([r1 z1] & H1 & E1) ([r2 z2] & H2 & E2)]. simpl in *.
    apply negb_false_iff in E2. subst.
    split; [by exists (r2, true)|by exists (r1, false)].
  - intros [([r1 z1] & E1 & H1) ([r2 z2] & E2 & H2)]. simpl in *. subst.
    split; [by exists (r2, false)|by exists (r1, true)].
Qed.

Lemma elem_of_zones d z :
  z ∈ (pd_concat (omap frame_of (sorted (glob_csv d)))).*2
  ↔ ∃ e, e ∈ glob_csv d ∧ z ∈ zones_of e.
Proof.
  unfold pd_concat, zones_of. rewrite list_elem_of_fmap. split.
  - intros (r & -> & (f & Hr & Hf)%list_elem_of_join).
    apply list_elem_of_omap in Hf as (e & He & Hf). rewrite sorted_perm in He.
    exists e. split; [done|]. rewrite Hf. simpl.
    apply list_elem_of_fmap. eauto.
  - intros (e & He & Hz). destruct (frame_of e) as [f|] eqn:Hf; simpl in Hz.
    + apply list_elem_of_fmap in Hz as (r & -> & Hr). exists r. split; [done|].
      apply list_elem_of_join. exists f. split; [done|].
      apply list_elem_of_omap. exists e. by rewrite sorted_perm.
    + by apply elem_of_nil in Hz.
Qed.

Lemma not_comparable_iff d :
  comparable (pd_concat (omap frame_of (sorted (glob_csv d)))) = false ↔ mixed_zones d.
Proof. unfold mixed_zones. by rewrite comparable_false, !elem_of_zones. Qed.

(** ** Validation *)

Lemma malformed_not_well_formed m r : malformed m r ↔ ¬ well_formed m r.
Proof.
  unfold malformed, well_formed. split.
  - intros [H|H] [H1 H2]; [rewrite H in H1; by destruct H1|done].
  - intros H. destruct (read_stamp m (raw_timestamp r)) eqn:E1; [|by left].
    right. destruct (decide (to_numeric (raw_kwh r) = NaN)) as [|Hn]; [done|].
    destruct H. split; [by eexists|done].
Qed.

(** The rows that lines 93-96 keep of a column read in the mode [m]. *)
Lemma dropna_filter m (l : list raw_row) :
  dropna_kwh (dropna_timestamp (coerce m <$> l))
  = coerce m <$> filter (well_formed m) l.
Proof.
  unfold dropna_kwh, dropna_timestamp.
  induction l as [|r l IH]; [done|]. rewrite fmap_cons.
  destruct (decide (well_formed m r)) as [[Ht Hk]|Hw].
  - rewrite (filter_cons_True (well_formed m)) by done.
    rewrite (filter_cons_True _ (coerce m r))
      by (simpl; by apply fmap_is_Some).
    rewrite filter_cons_True by (simpl; by destruct (to_numeric (raw_kwh r))).
    by rewrite fmap_cons, IH.
  - rewrite (filter_cons_False (well_formed m)) by done.
    destruct (decide (is_Some (read_stamp m (raw_timestamp r)))) as [Ht|Ht].
    + rewrite (filter_cons_True _ (coerce m r))
        by (simpl; by apply fmap_is_Some).
      rewrite filter_cons_False; [done|]. simpl. intros Hk. apply Hw.
      split; [done|]. intros E. by rewrite E in Hk.
    + rewrite (filter_cons_False _ (coerce m r)); [done|].
      simpl. by rewrite fmap_is_Some.
Qed.

Lemma clean_filter n t :
  clean n t
  = validated (mode_of t) n (columns t) <$> filter (well_formed (mode_of t)) (lines t).
Proof.
  unfold clean. rewrite dropna_filter. unfold validated. case_bool_decide.
  - done.
  - rewrite <-list_fmap_compose. by apply list_fmap_ext.
Qed.

Lemma clean_valid n t r z :
  (r, z) ∈ clean n t → is_Some (timestamp r) ∧ kwh r ≠ NaN.
Proof.
  rewrite clean_filter.
  intros (l & [= -> ->] & [[Ht Hk] _]%list_elem_of_filter)%list_elem_of_fmap.
  simpl. split; [by apply fmap_is_Some|done].
Qed.

Lemma clean_all_malformed n t :
  Forall (malformed (mode_of t)) (lines t) → clean n t = [].
Proof.
  intros Hall. rewrite clean_filter.
  assert (filter (well_formed (mode_of t)) (lines t) = []) as ->; [|done].
  induction Hall as [|r l Hr _ IH]; [done|].
  rewrite filter_cons_False; [done|]. by apply malformed_not_well_formed.
Qed.

Lemma frames_valid es r :
  r ∈ (pd_concat (omap frame_of es)).*1 → is_Some (timestamp r) ∧ kwh r ≠ NaN.
Proof.
  unfold pd_concat.
  intros ([r' z] & -> & (f & Hr & Hf)%list_elem_of_join)%list_elem_of_fmap.
  apply list_elem_of_omap in Hf as ([n c] & _ & Hf).
  unfold frame_of in Hf. simpl in Hf.
  destruct c as [| |t]; [done..|]. destruct (has_structure t); [|done].
  injection Hf as <-. by eapply clean_valid.
Qed.

Lemma elem_of_valid_rows d r :
  r ∈ (pd_concat (omap frame_of (sorted (glob_csv d)))).*1
  ↔ ∃ e, e ∈ glob_csv d ∧ r ∈ valid_rows e.
Proof.
  unfold pd_concat, valid_rows. rewrite list_elem_of_fmap. split.
  - intros (p & -> & (f & Hr & Hf)%list_elem_of_join).
    apply list_elem_of_omap in Hf as (e & He & Hf). rewrite sorted_perm in He.
    exists e. split; [done|]. rewrite Hf. simpl.
    apply list_elem_of_fmap. eauto.
  - intros (e & He & Hz). destruct (frame_of e) as [f|] eqn:Hf; simpl in Hz.
    + apply list_elem_of_fmap in Hz as (p & -> & Hr). exists p. split; [done|].
      apply list_elem_of_join. exists f. split; [done|].
      apply list_elem_of_omap. exists e. by rewrite sorted_perm.
    + by apply elem_of_nil in Hz.
Qed.

(** ** Source loader and merger: the claims *)

Lemma comparable_iff d :
  comparable (pd_concat (omap frame_of (sorted (glob_csv d)))) = true ↔ ¬ mixed_zones d.
Proof.
  rewrite <-not_comparable_iff. by destruct (comparable _).
Qed.

Lemma mixed_zones_frame d : mixed_zones d → ¬ Forall (λ e, frame_of e = None) (glob_csv d).
Proof.
  intros [(e & He & Hz) _] Hall. rewrite Forall_forall in Hall.
  unfold zones_of in Hz. rewrite (Hall e He) in Hz. by apply elem_of_nil in Hz.
Qed.

Lemma no_valid_rows_iff d :
  (pd_concat (omap frame_of (sorted (glob_csv d)))).*1 = []
  ↔ Forall (λ e, valid_rows e = []) (glob_csv d).
Proof.
  rewrite Forall_forall. split.
  - intros E e He. destruct (valid_rows e) as [|r l] eqn:Er; [done|].
    assert (r ∈ (pd_concat (omap frame_of (sorted (glob_csv d)))).*1) as Hr.
    { apply elem_of_valid_rows. exists e. split; [done|]. rewrite Er.
      apply list_elem_of_here. }
    rewrite E in Hr. by apply elem_of_nil in Hr.
  - intros Hall.
    destruct ((pd_concat (omap frame_of (sorted (glob_csv d)))).*1) as [|r l] eqn:E;
      [done|].
    assert (r ∈ r :: l) as Hr by apply list_elem_of_here.
    rewrite <-E in Hr. apply elem_of_valid_rows in Hr as (e & He & Hr).
    rewrite (Hall e He) in Hr. by apply elem_of_nil in Hr.
Qed.

(** The four ways a load ends. *)
Lemma load_and_merge_outcome K d :
  (¬ Forall readable (glob_csv d)
   ∧ ∃ n msg, load_and_merge K d = Raise (ReadError msg)
              ∧ (n, Unreadable msg) ∈ glob_csv d)
  ∨ (Forall readable (glob_csv d)
     ∧ Forall (λ e, frame_of e = None) (glob_csv d)
     ∧ load_and_merge K d = Raise no_data)
  ∨ (Forall readable (glob_csv d)
     ∧ ¬ Forall (λ e, frame_of e = None) (glob_csv d)
     ∧ mixed_zones d
     ∧ load_and_merge K d = Raise tz_error)
  ∨ (Forall readable (glob_csv d)
     ∧ ¬ Forall (λ e, frame_of e = None) (glob_csv d)
     ∧ ¬ mixed_zones d
     ∧ load_and_merge K d
       = Return (sort_values K (pd_concat (omap frame_of (sorted (glob_csv d)))).*1,
                 omap message_of (sorted (glob_csv d)))).
Proof.
  rewrite load_and_merge_spec.
  pose proof (no_read_error_iff d) as Hread.
  pose proof (read_errors d) as Herr.
  pose proof (no_frame_iff d) as Hframe.
  pose proof (not_comparable_iff d) as Hmix.
  destruct (omap read_error_of (sorted (glob_csv d))) as [|x xs].
  - assert (Forall readable (glob_csv d)) as Hr by (by apply Hread).
    right. destruct (omap frame_of (sorted (glob_csv d))) as [|f fs].
    + left. split; [done|]. split; [by apply Hframe|done].
    + right. assert (¬ Forall (λ e, frame_of e = None) (glob_csv d)) as Hn.
      { intros H%Hframe. done. }
      cbn zeta. destruct (comparable (pd_concat (f :: fs))) eqn:Ec.
      * right. split; [done|]. split; [done|]. split; [|done].
        intros H%Hmix. congruence.
      * left. split; [done|]. split; [done|]. split; [by apply Hmix|done].
  - left. split.
    + intros H%Hread. done.
    + destruct (Herr x) as (n & msg & -> & Hin); [apply list_elem_of_here|]. eauto.
Qed.

(** C1, as stated, fails in both directions. A source whose lines are all
    malformed still counts as loaded: no source contributes a valid row,
    and [load_and_merge] returns an empty frame instead of raising. And a
    file that [read_csv] cannot parse ends the load with its own error,
    although another source has a valid row. *)
Lemma all_malformed_source_does_not_raise :
  Forall (λ e, valid_rows e = []) (glob_csv dir_all_malformed)
  ∧ load_and_merge stable_kind dir_all_malformed = Return ([], [])
  ∧ Exists (λ e, valid_rows e ≠ []) (glob_csv dir_empty_file)
  ∧ load_and_merge stable_kind dir_empty_file
    = Raise (ReadError "No columns to parse from file").
Proof.
  split; [repeat constructor|]. split; [reflexivity|]. split; [|reflexivity].
  unfold dir_empty_file, glob_csv. rewrite filter_cons_True by reflexivity.
  apply Exists_cons_hd. discriminate.
Qed.

(** C1, as the code has it. [load_and_merge] ends in one of four ways,
    each told by the [*.csv] entries: with the error of [read_csv] when
    the read of an entry fails with another error than a missing file;
    with the no-data error when every entry is read and none is a table
    with the columns [timestamp] and [kwh]; with a [TypeError] of the sort
    when the valid rows hold tz-aware and tz-naive timestamps; and with a
    merged frame otherwise, which is empty exactly when no source has a
    valid row. Whatever it raises, [main] has written no file. *)
Theorem load_and_merge_raises_iff_no_frame K stages d :
  (load_and_merge K d = Raise no_data
   ↔ Forall readable (glob_csv d) ∧ Forall (λ e, frame_of e = None) (glob_csv d))
  ∧ ((∃ msg, load_and_merge K d = Raise (ReadError msg))
     ↔ ¬ Forall readable (glob_csv d))
  ∧ (∀ msg, load_and_merge K d = Raise (ReadError msg) →
       ∃ n, (n, Unreadable msg) ∈ glob_csv d)
  ∧ (load_and_merge K d = Raise tz_error
     ↔ Forall readable (glob_csv d) ∧ mixed_zones d)
  ∧ ((∃ m log, load_and_merge K d = Return (m, log))
     ↔ Forall readable (glob_csv d)
       ∧ Exists (λ e, frame_of e ≠ None) (glob_csv d)
       ∧ ¬ mixed_zones d)
  ∧ (∀ m log, load_and_merge K d = Return (m, log) →
       (m = [] ↔ Forall (λ e, valid_rows e = []) (glob_csv d)))
  ∧ (∀ x, load_and_merge K d = Raise x →
       main K stages d = {| written := []; failure := Some x |}).
Proof.
  assert (Exists (λ e, frame_of e ≠ None) (glob_csv d)
          ↔ ¬ Forall (λ e, frame_of e = None) (glob_csv d)) as Hex.
  { split.
    - intros H1 H2. apply Exists_exists in H1 as (e & He & Hne).
      rewrite Forall_forall in H2. by apply H2 in He.
    - intros H. apply not_Forall_Exists in H; [done|apply _]. }
  assert (∀ x, load_and_merge K d = Raise x →
               main K stages d = {| written := []; failure := Some x |}) as Hmain.
  { intros x Hx. unfold main. by rewrite Hx. }
  pose proof (mixed_zones_frame d) as Hmf.
  destruct (load_and_merge_outcome K d)
    as [(Hr & n & msg & E & Hin)|[(Hr & Hf & E)|[(Hr & Hf & Hm & E)|(Hr & Hf & Hm & E)]]];
    (split_and!; [..|exact Hmain]); rewrite E.
  - split; [done|]. by intros [? _].
  - split; [done|]. intros _. eauto.
  - intros msg' [= <-]. eauto.
  - split; [done|]. by intros [? _].
  - split; [by intros (? & ? & ?)|]. by intros (? & _).
  - done.
  - done.
  - split; [by intros [? ?]|done].
  - done.
  - split; [done|]. intros [_ ?%Hmf]. done.
  - split; [by intros (? & ? & ?)|]. intros (_ & ?%Hex & _). done.
  - done.
  - split; [done|]. by intros [_ ?].
  - split; [by intros [? ?]|done].
  - done.
  - done.
  - split; [by intros (? & ? & ?)|]. by intros (_ & _ & ?).
  - done.
  - split; [done|]. by intros [_ ?].
  - split; [by intros [? ?]|done].
  - done.
  - split; [done|]. by intros [_ ?].
  - split; [|eauto]. intros _. split; [done|]. split; [by apply Hex|done].
  - intros m log [= <- _]. rewrite <-no_valid_rows_iff. split.
    + intros H. apply Permutation_nil_r. by rewrite <-H, sort_values_perm.
    + intros H. apply Permutation_nil_r. by rewrite sort_values_perm, H.
Qed.

Lemma load_and_merge_raises_iff_no_frame_witness :
  load_and_merge stable_kind [("b.csv", Vanished)] = Raise no_data
  ∧ main stable_kind (λ _, Run ["cleaned_energy_data.csv"] None) [("b.csv", Vanished)]
    = {| written := []; failure := Some no_data |}
  ∧ load_and_merge stable_kind dir_two_zones = Raise tz_error
  ∧ (Forall readable (glob_csv dir_two_zones) ∧ mixed_zones dir_two_zones).
Proof.
  pose proof (load_and_merge_raises_iff_no_frame stable_kind
                (λ _, Run ["cleaned_energy_data.csv"] None) [("b.csv", Vanished)])
    as (_ & _ & _ & _ & _ & _ & Hraise).
  pose proof (load_and_merge_raises_iff_no_frame stable_kind
                (λ _, Run [] None) dir_two_zones) as (_ & _ & _ & [Hzones _] & _).
  split; [reflexivity|].
  split; [apply Hraise; reflexivity|].
  split; [reflexivity|].
  apply Hzones. reflexivity.
Defined.

Example dir_mixed_loaded :
  load_and_merge stable_kind dir_mixed
  = Return ([Row (Some "a") (Some 3) (of_Z 2)], ["Missing file: b.csv"]).
Proof. reflexivity. Qed.

(** C3, as stated, fails for the tie order: the sort of the code is not a
    stable one. In the scenario of the specification the reading of "A" at
    5 o'clock is row 5 of the concatenated frame and the reading of "B" at
    5 o'clock is row 24; the quicksort puts row 24 in front of row 5, and
    the merged frame, which is the concatenated frame taken in that order,
    has the reading of "B" in front of the reading of "A". *)
Lemma ties_need_not_keep_input_order :
  scenario_rows !! 5%nat = Some (Row (Some "A") (Some (5 * ns_per_hour)) (of_Z 5))
  ∧ scenario_rows !! 24%nat = Some (Row (Some "B") (Some (5 * ns_per_hour)) (of_Z 10))
  ∧ nargsort (timestamp <$> scenario_rows) = (seq 0 5 ++ 24 :: seq 5 19)%nat
  ∧ load_and_merge quicksort_kind scenario
    = Return (take_rows scenario_rows (nargsort (timestamp <$> scenario_rows)),
              ["Missing file: C.csv"])
  ∧ take_rows scenario_rows (nargsort (timestamp <$> scenario_rows)) !! 5%nat
    = Some (Row (Some "B") (Some (5 * ns_per_hour)) (of_Z 10))
  ∧ take_rows scenario_rows (nargsort (timestamp <$> scenario_rows)) !! 6%nat
    = Some (Row (Some "A") (Some (5 * ns_per_hour)) (of_Z 5)).
Proof.
  split; [reflexivity|]. split; [reflexivity|]. split; [vm_compute; reflexivity|].
  split; [vm_compute; reflexivity|]. split; vm_compute; reflexivity.
Qed.

(** C3, as the code has it: the merged frame is what the sort makes of the
    valid rows of the sources, concatenated in the sorted order of the file
    names; it is in ascending order of timestamp, every row has a
    timestamp, and its rows are the concatenated rows. *)
Theorem merged_sorted_by_timestamp K d m log :
  load_and_merge K d = Return (m, log) →
  m = sort_values K (pd_concat (omap frame_of (sorted (glob_csv d)))).*1
  ∧ StronglySorted row_le m
  ∧ Forall (λ r, is_Some (timestamp r)) m
  ∧ m ≡ₚ (pd_concat (omap frame_of (sorted (glob_csv d)))).*1.
Proof.
  intros (-> & _ & _)%load_and_merge_Return. split; [done|]. split; [|split].
  - apply Sorted_StronglySorted; [apply _|]. apply sort_values_sorted.
  - rewrite sort_values_perm. apply Forall_forall.
    intros r Hr. by apply frames_valid in Hr as [? _].
  - apply sort_values_perm.
Qed.

Lemma merged_sorted_by_timestamp_witness :
  load_and_merge quicksort_kind dir_out_of_order
  = Return ([Row (Some "a") (Some 2) (of_Z 2);
             Row (Some "b") (Some 5) (of_Z 3);
             Row (Some "a") (Some 9) (of_Z 1)], [])
  ∧ (pd_concat (omap frame_of (sorted (glob_csv dir_out_of_order)))).*1
    = [Row (Some "a") (Some 9) (of_Z 1);
       Row (Some "a") (Some 2) (of_Z 2);
       Row (Some "b") (Some 5) (of_Z 3)]
  ∧ StronglySorted row_le
      [Row (Some "a") (Some 2) (of_Z 2);
       Row (Some "b") (Some 5) (of_Z 3);
       Row (Some "a") (Some 9) (of_Z 1)].
Proof.
  assert (load_and_merge quicksort_kind dir_out_of_order
          = Return ([Row (Some "a") (Some 2) (of_Z 2);
                     Row (Some "b") (Some 5) (of_Z 3);
                     Row (Some "a") (Some 9) (of_Z 1)], [])) as H by reflexivity.
  split; [exact H|]. split; [reflexivity|].
  exact (proj1 (proj2 (merged_sorted_by_timestamp quicksort_kind dir_out_of_order
           _ _ H))).
Defined.

(** C5, as stated, fails: negative and infinite readings are numbers, so
    neither [dropna] removes them. *)
Lemma negative_and_infinite_kwh_are_kept :
  load_and_merge stable_kind dir_negative
  = Return ([Row (Some "meter") (Some 0) (of_Z (-5));
             Row (Some "meter") (Some 1) PInf], [])
  ∧ finite_nonneg (of_Z (-5)) = false
  ∧ finite_nonneg PInf = false.
Proof. repeat split. Qed.

(** C5, as the code has it: every row of the merged frame has a timestamp
    and a kwh value that is a number (not NaN). *)
Theorem merged_rows_valid K d m log :
  load_and_merge K d = Return (m, log) →
  Forall (λ r, is_Some (timestamp r) ∧ kwh r ≠ NaN) m.
Proof.
  intros (-> & _ & _)%load_and_merge_Return. rewrite sort_values_perm.
  apply Forall_forall. intros r Hr. by eapply frames_valid.
Qed.

Lemma merged_rows_valid_witness :
  load_and_merge stable_kind dir_negative
  = Return ([Row (Some "meter") (Some 0) (of_Z (-5));
             Row (Some "meter") (Some 1) PInf], [])
  ∧ Forall (λ r, is_Some (timestamp r) ∧ kwh r ≠ NaN)
      [Row (Some "meter") (Some 0) (of_Z (-5)); Row (Some "meter") (Some 1) PInf].
Proof.
  split; [reflexivity|].
  eapply (merged_rows_valid stable_kind dir_negative). reflexivity.
Defined.

(** C6, as stated, fails: the loop logs a source only when it is missing
    or lacks a column. A source with both columns whose lines are all
    malformed adds an empty frame and no message. *)
Lemma all_malformed_source_is_not_logged :
  has_structure (CsvTable ["timestamp"; "kwh"] [RawRow Garbled (Parsed (of_Z 5)) None]) = true
  ∧ Forall (malformed (mode_of (CsvTable ["timestamp"; "kwh"]
                                  [RawRow Garbled (Parsed (of_Z 5)) None])))
      [RawRow Garbled (Parsed (of_Z 5)) None]
  ∧ load_step ([], [])
      ("meter.csv", Table (CsvTable ["timestamp"; "kwh"] [RawRow Garbled (Parsed (of_Z 5)) None]))
    = Return ([[]], []).
Proof.
  split; [reflexivity|]. split; [|reflexivity].
  repeat constructor.
Qed.

(** C6, as the code has it: a source with both columns whose lines are all
    malformed adds no row to the merged frame and no entry to the log. *)
Theorem all_malformed_source_adds_nothing n t frames log :
  has_structure t = true →
  Forall (malformed (mode_of t)) (lines t) →
  load_step (frames, log) (n, Table t) = Return (frames ++ [[]], log)
  ∧ pd_concat (frames ++ [[]]) = pd_concat frames
  ∧ message_of (n, Table t) = None.
Proof.
  intros Hs Hall. unfold load_step, message_of. simpl. rewrite Hs.
  rewrite (clean_all_malformed _ _ Hall). split; [done|]. split; [|done].
  unfold pd_concat. by rewrite join_app, app_nil_r.
Qed.

Lemma all_malformed_source_adds_nothing_witness :
  load_step ([], ["Missing file: a.csv"])
    ("meter.csv", Table (CsvTable ["timestamp"; "kwh"] [RawRow Garbled (Parsed (of_Z 5)) None]))
  = Return ([[]], ["Missing file: a.csv"]).
Proof.
  refine (proj1 (all_malformed_source_adds_nothing "meter.csv"
    (CsvTable ["timestamp"; "kwh"] [RawRow Garbled (Parsed (of_Z 5)) None])
    [] ["Missing file: a.csv"] _ _)).
  - reflexivity.
  - repeat constructor.
Defined.




(** A directory that lists its files against the order of their names:
    the messages come in the order of the names. *)
Example dir_reversed_loaded :
  glob_csv dir_reversed = dir_reversed
  ∧ omap message_of dir_reversed
    = ["Missing file: d.csv"; "Invalid structure in: c.csv"; "Missing file: a.csv"]
  ∧ load_and_merge quicksort_kind dir_reversed
    = Return ([Row (Some "b") (Some 3) (of_Z 2)],
              ["Missing file: a.csv"; "Invalid structure in: c.csv"; "Missing file: d.csv"]).
Proof. repeat split. Qed.

(** ** Arithmetic of the sums *)

Lemma fadd_comm x y : fadd x y = fadd y x.
Proof. destruct x, y; simpl; try done. f_equal. ring. Qed.

Lemma fadd_assoc x y z : fadd x (fadd y z) = fadd (fadd x y) z.
Proof. destruct x, y, z; simpl; try done. f_equal. ring. Qed.

Lemma fadd_zero_l x : fadd fzero x = x.
Proof. destruct x; simpl; try done. f_equal. ring. Qed.

Lemma fadd_zero_r x : fadd x fzero = x.
Proof. by rewrite fadd_comm, fadd_zero_l. Qed.

Lemma np_sum_app l1 l2 : np_sum (l1 ++ l2) = fadd (np_sum l1) (np_sum l2).
Proof.
  unfold np_sum. induction l1 as [|x l1 IH]; cbn [foldr app].
  - by rewrite fadd_zero_l.
  - by rewrite IH, fadd_assoc.
Qed.

Lemma pd_sum_nil : pd_sum [] = fzero.
Proof. done. Qed.

Lemma pd_sum_cons x l :
  pd_sum (x :: l) = if notna x then fadd x (pd_sum l) else pd_sum l.
Proof.
  unfold pd_sum. rewrite filter_cons.
  destruct (notna x) eqn:E; case_decide; try done.
Qed.

Lemma pd_sum_no_nan l : Forall (λ x, x ≠ NaN) l → pd_sum l = np_sum l.
Proof.
  induction 1 as [|x l Hx _ IH]; [done|].
  rewrite pd_sum_cons, IH. by destruct x.
Qed.

(** Splitting a frame by any test splits the sum of its [kwh] column. *)
Lemma pd_sum_split (P : row → Prop) `{∀ r, Decision (P r)} (df : DataFrame) :
  fadd (pd_sum (kwh <$> filter P df)) (pd_sum (kwh <$> filter (λ r, ¬ P r) df))
  = pd_sum (kwh <$> df).
Proof.
  induction df as [|r df IH].
  - apply fadd_zero_l.
  - rewrite !filter_cons. destruct (decide (P r)) as [Hp|Hp].
    + rewrite decide_False by auto. rewrite !fmap_cons, !pd_sum_cons.
      destruct (notna (kwh r)); [|done]. by rewrite <-fadd_assoc, IH.
    + rewrite decide_True by auto. rewrite !fmap_cons, !pd_sum_cons.
      destruct (notna (kwh r)); [|done].
      rewrite (fadd_comm (kwh r)), fadd_assoc, IH. apply fadd_comm.
Qed.

(** ** Building summary *)

Lemma group_filter_ne b k (df : DataFrame) :
  b ≠ k → group b (filter (λ r, ¬ building r = Some k) df) = group b df.
Proof.
  intros Hne. unfold group. rewrite list_filter_filter.
  apply list_filter_iff. intros r. split; [tauto|].
  intros E. split; [done|]. rewrite E. congruence.
Qed.

(** The group totals over any duplicate-free list of names that covers the
    buildings of the frame add up to the total of the frame. *)
Lemma group_totals_sum ks (df : DataFrame) :
  NoDup ks →
  Forall (λ r, ∃ b, b ∈ ks ∧ building r = Some b) df →
  np_sum ((λ b, pd_sum (kwh <$> group b df)) <$> ks) = pd_sum (kwh <$> df).
Proof.
  intros Hnd. revert df. induction Hnd as [|k ks Hk Hnd IH]; intros df Hcov.
  - destruct df as [|r df]; [done|].
    inversion Hcov as [|? ? (b & Hb & _)]; subst. by apply elem_of_nil in Hb.
  - rewrite fmap_cons. change (np_sum (?x :: ?l)) with (fadd x (np_sum l)).
    rewrite <-(pd_sum_split (λ r, building r = Some k) df).
    f_equal. rewrite <-IH.
    + f_equal. apply Forall_fmap_ext, Forall_forall. intros b Hb.
      rewrite group_filter_ne; [done|]. by intros ->.
    + apply Forall_forall. intros r Hr.
      apply list_elem_of_filter in Hr as [Hr1 Hr2].
      rewrite Forall_forall in Hcov. destruct (Hcov r Hr2) as (b & Hb & Eb).
      exists b. split; [|done]. apply elem_of_cons in Hb as [->|Hb]; [done|done].
Qed.

(** C2, as stated, fails: [groupby] leaves out the rows whose [building]
    cell is missing, so their kwh is in the frame and in no total. *)
Lemma rows_without_building_are_in_no_total :
  load_and_merge stable_kind dir_unnamed = Return ([Row None (Some 0) (of_Z 5)], [])
  ∧ building_wise_summary [Row None (Some 0) (of_Z 5)] = []
  ∧ np_sum (total_kwh <$> building_wise_summary [Row None (Some 0) (of_Z 5)]) = fzero
  ∧ pd_sum (kwh <$> [Row None (Some 0) (of_Z 5)]) = of_Z 5
  ∧ fzero ≠ of_Z 5.
Proof. repeat split. discriminate. Qed.

(** C2, as the code has it: on a frame whose rows all name a building, the
    [total_kwh] column of the summary adds up to the sum of the [kwh]
    column of the frame; each [total_kwh] is the sum of the rows of its
    building; and every row belongs to exactly one row of the summary. *)
Theorem summary_totals_add_up (df : DataFrame) :
  Forall (λ r, is_Some (building r)) df →
  np_sum (total_kwh <$> building_wise_summary df) = pd_sum (kwh <$> df)
  ∧ Forall (λ s, total_kwh s = pd_sum (kwh <$> group (s_building s) df))
      (building_wise_summary df)
  ∧ NoDup (s_building <$> building_wise_summary df)
  ∧ Forall (λ r, ∃ s, s ∈ building_wise_summary df ∧ building r = Some (s_building s)) df.
Proof.
  intros Hall. unfold building_wise_summary. rewrite <-!list_fmap_compose.
  split; [|split; [|split]].
  - apply group_totals_sum; [apply group_keys_NoDup|].
    apply Forall_forall. intros r Hr. rewrite Forall_forall in Hall.
    destruct (Hall r Hr) as [b Hb]. exists b. split; [|done].
    apply elem_of_group_keys. eauto.
  - by apply Forall_fmap, Forall_forall.
  - rewrite (list_fmap_ext _ id (group_keys df)) by done.
    rewrite list_fmap_id. apply group_keys_NoDup.
  - apply Forall_forall. intros r Hr. rewrite Forall_forall in Hall.
    destruct (Hall r Hr) as [b Hb].
    exists (summarise b (group b df)). split; [|done].
    apply list_elem_of_fmap. exists b. split; [done|].
    apply elem_of_group_keys. eauto.
Qed.

Lemma summary_totals_add_up_witness :
  Forall (λ r, is_Some (building r)) two_buildings
  ∧ np_sum (total_kwh <$> building_wise_summary two_buildings)
    = pd_sum (kwh <$> two_buildings).
Proof.
  assert (Forall (λ r, is_Some (building r)) two_buildings) as H.
  { repeat constructor; by eexists. }
  split; [exact H|].
  exact (proj1 (summary_totals_add_up two_buildings H)).
Defined.

Example two_buildings_summary :
  building_wise_summary two_buildings
  = [ {| s_building := "A"; mean_kwh := fdiv_count (of_Z 12) 2; min_kwh := of_Z 5;
         max_kwh := of_Z 7; total_kwh := of_Z 12 |};
      {| s_building := "B"; mean_kwh := of_Z 10; min_kwh := of_Z 10;
         max_kwh := of_Z 10; total_kwh := of_Z 10 |} ].
Proof. reflexivity. Qed.

(** ** Resampling *)

Lemma list_min_spec x l :
  list_min x l ∈ x :: l ∧ Forall (λ y, list_min x l ≤ y) (x :: l).
Proof.
  unfold list_min. revert x. induction l as [|y l IH]; intros x; simpl.
  - split; [apply list_elem_of_here|]. repeat constructor. lia.
  - destruct (IH (Z.min x y)) as [Hin Hle]. split.
    + apply elem_of_cons in Hin as [->|Hin].
      * destruct (Z.min_spec x y) as [[_ ->]|[_ ->]];
          [apply list_elem_of_here|apply list_elem_of_further, list_elem_of_here].
      * by do 2 apply list_elem_of_further.
    + inversion Hle as [|? ? H1 H2]; subst.
      repeat constructor; [lia|lia|done].
Qed.

Lemma list_max_spec x l :
  list_max x l ∈ x :: l ∧ Forall (λ y, y ≤ list_max x l) (x :: l).
Proof.
  unfold list_max. revert x. induction l as [|y l IH]; intros x; simpl.
  - split; [apply list_elem_of_here|]. repeat constructor. lia.
  - destruct (IH (Z.max x y)) as [Hin Hle]. split.
    + apply elem_of_cons in Hin as [->|Hin].
      * destruct (Z.max_spec x y) as [[_ ->]|[_ ->]];
          [apply list_elem_of_further, list_elem_of_here|apply list_elem_of_here].
      * by do 2 apply list_elem_of_further.
    + inversion Hle as [|? ? H1 H2]; subst.
      repeat constructor; [lia|lia|done].
Qed.

Section ResampleFacts.
Context (bucket last label : Z → Z) `{!Inj (=) (=) label}.
Hypothesis bucket_mono : ∀ t1 t2, t1 ≤ t2 → bucket t1 ≤ bucket t2.
Hypothesis last_mono : ∀ t1 t2, t1 ≤ t2 → last t1 ≤ last t2.
Hypothesis bucket_le_last : ∀ t, bucket t ≤ last t.

#[local] Abbreviation spanned := (spanned bucket last).
#[local] Abbreviation resampled_row := (resampled_row bucket label).

Lemma elem_of_timestamps (g : DataFrame) t :
  t ∈ omap timestamp g ↔ ∃ r, r ∈ g ∧ timestamp r = Some t.
Proof. apply list_elem_of_omap. Qed.

Lemma elem_of_resample_sum b (g : DataFrame) r :
  r ∈ resample_sum bucket last label b g ↔
  ∃ i, (∃ r1 r2 t1 t2, r1 ∈ g ∧ r2 ∈ g ∧ timestamp r1 = Some t1
          ∧ timestamp r2 = Some t2 ∧ bucket t1 ≤ i ≤ last t2)
       ∧ r = {| building := Some b; timestamp := Some (label i);
                kwh := pd_sum (kwh <$> in_bucket bucket i g) |}.
Proof.
  unfold resample_sum.
  pose proof (elem_of_timestamps g) as Hb.
  destruct (omap timestamp g) as [|t0 rest].
  - split; [by intros ?%elem_of_nil|].
    intros (i & (r1 & _ & t1 & _ & Hr1 & _ & Ht1 & _) & _).
    assert (t1 ∈ @nil Z) as H by (apply Hb; eauto).
    by apply elem_of_nil in H.
  - destruct (list_min_spec t0 rest) as [Hlo_in Hlo].
    destruct (list_max_spec t0 rest) as [Hhi_in Hhi].
    rewrite Forall_forall in Hlo, Hhi.
    rewrite list_elem_of_fmap. split.
    + intros (i & -> & Hi). exists i. split; [|done].
      apply elem_of_seqZ in Hi.
      apply Hb in Hlo_in as (r1 & Hr1 & Ht1).
      apply Hb in Hhi_in as (r2 & Hr2 & Ht2).
      exists r1, r2, (list_min t0 rest), (list_max t0 rest).
      repeat split; try done; lia.
    + intros (i & (r1 & r2 & t1 & t2 & Hr1 & Hr2 & Ht1 & Ht2 & Hi) & ->).
      exists i. split; [done|]. apply elem_of_seqZ.
      assert (t1 ∈ t0 :: rest) as H1 by (apply Hb; eauto).
      assert (t2 ∈ t0 :: rest) as H2 by (apply Hb; eauto).
      apply Hlo, bucket_mono in H1. apply Hhi, last_mono in H2. lia.
Qed.

Lemma resample_sum_building b g r :
  r ∈ resample_sum bucket last label b g → building r = Some b.
Proof.
  unfold resample_sum. destruct (omap timestamp g); [by intros ?%elem_of_nil|].
  by intros (i & -> & _)%list_elem_of_fmap.
Qed.

Lemma resample_sum_NoDup b g :
  NoDup (period_key <$> resample_sum bucket last label b g).
Proof.
  unfold resample_sum. destruct (omap _ g) as [|t0 rest]; [constructor|].
  rewrite <-list_fmap_compose. apply NoDup_fmap_2_strong; [|apply NoDup_seqZ].
  intros i j _ _ [= E]. by apply (inj label).
Qed.

(** The table has one row for each spanned (building, bucket), with the
    sum of the readings in it, and no other row. *)
Lemma elem_of_resample_table (df : DataFrame) r :
  r ∈ resample_table bucket last label df ↔
  ∃ b i, spanned df b i ∧ r = resampled_row df b i.
Proof.
  unfold resample_table. rewrite list_elem_of_join. split.
  - intros (l & Hr & Hl). apply list_elem_of_fmap in Hl as (b & -> & Hb).
    apply elem_of_resample_sum in Hr
      as (i & (r1 & r2 & t1 & t2 & Hr1 & Hr2 & Ht1 & Ht2 & Hi) & ->).
    apply list_elem_of_filter in Hr1 as [? ?].
    apply list_elem_of_filter in Hr2 as [? ?].
    exists b, i. split; [|done]. exists r1, r2, t1, t2. repeat split; try done; lia.
  - intros (b & i & (r1 & r2 & t1 & t2 & Hr1 & Hr2 & Hb1 & Hb2 & Ht1 & Ht2 & Hi) & ->).
    exists (resample_sum bucket last label b (group b df)). split.
    + apply elem_of_resample_sum. exists i. split; [|done].
      exists r1, r2, t1, t2. unfold group. rewrite !list_elem_of_filter. repeat split; try done; lia.
    + apply list_elem_of_fmap. exists b. split; [done|].
      apply elem_of_group_keys. eauto.
Qed.

Lemma resample_table_NoDup (df : DataFrame) :
  NoDup (period_key <$> resample_table bucket last label df).
Proof.
  unfold resample_table.
  pose proof (group_keys_NoDup df) as Hnd. induction Hnd as [|b ks Hb Hnd IH].
  - constructor.
  - rewrite fmap_cons. simpl. rewrite fmap_app. apply NoDup_app. split; [|split].
    + apply resample_sum_NoDup.
    + intros k Hk1 Hk2.
      apply list_elem_of_fmap in Hk1 as (r1 & -> & Hr1).
      apply list_elem_of_fmap in Hk2 as (r2 & E & Hr2).
      apply resample_sum_building in Hr1.
      apply list_elem_of_join in Hr2 as (l & Hr2 & Hl).
      apply list_elem_of_fmap in Hl as (b' & -> & Hb').
      apply resample_sum_building in Hr2.
      injection E as E1 _. rewrite Hr1, Hr2 in E1. injection E1 as ->. done.
    + apply IH.
Qed.

Lemma readings_spanned (df : DataFrame) b i :
  readings_in bucket df b i ≠ [] → spanned df b i.
Proof.
  intros Hne. destruct (readings_in bucket df b i) as [|r l] eqn:E; [done|].
  assert (r ∈ readings_in bucket df b i) as Hr by (rewrite E; apply list_elem_of_here).
  unfold readings_in, in_bucket, group, bucket_of in Hr.
  apply list_elem_of_filter in Hr as [Hi Hr].
  apply list_elem_of_filter in Hr as [Hb Hr].
  destruct (timestamp r) as [t|] eqn:Et; [|done]. injection Hi as <-.
  exists r, r, t, t. repeat split; try done; apply bucket_le_last.
Qed.

Lemma resample_table_dense (df : DataFrame) :
  dense_resample bucket last label df (resample_table bucket last label df).
Proof.
  split; [|split; [|split]].
  - by apply resample_table_NoDup.
  - apply elem_of_resample_table.
  - intros b i Hne. apply elem_of_resample_table.
    exists b, i. split; [|done]. by apply readings_spanned.
  - intros b i Hs E. apply elem_of_resample_table.
    exists b, i. split; [done|]. unfold resampled_row. by rewrite E.
Qed.
End ResampleFacts.

#[global] Instance day_label_inj : Inj (=) (=) day_label.
Proof. intros x y. unfold day_label, ns_per_day. lia. Qed.

#[global] Instance week_label_inj : Inj (=) (=) week_label.
Proof. intros x y. unfold week_label, ns_per_day. lia. Qed.

Lemma day_of_mono t1 t2 : t1 ≤ t2 → day_of t1 ≤ day_of t2.
Proof. intros H. unfold day_of. by apply Z.div_le_mono. Qed.

Lemma week_of_mono t1 t2 : t1 ≤ t2 → week_of t1 ≤ week_of t2.
Proof.
  intros H%day_of_mono. unfold week_of. apply Z.div_le_mono; lia.
Qed.

(** An instant after the end of a week is in a later week. *)
Lemma week_of_after_end w t : week_end w < t → w + 1 ≤ week_of t.
Proof.
  unfold week_end, week_label, week_of, day_of. intros H.
  assert (7 * w + 11 ≤ t `div` ns_per_day) as Hd.
  { apply Z.div_le_lower_bound; [done|]. lia. }
  apply Z.div_le_lower_bound; lia.
Qed.

Lemma week_le_last t : week_of t ≤ last_week_of t.
Proof. unfold last_week_of. case_decide; lia. Qed.

Lemma last_week_of_mono t1 t2 : t1 ≤ t2 → last_week_of t1 ≤ last_week_of t2.
Proof.
  intros H. pose proof (week_of_mono _ _ H) as Hw. unfold last_week_of.
  destruct (decide (t1 = week_end (week_of t1))) as [E1|_];
    destruct (decide (t2 = week_end (week_of t2))) as [E2|N2]; try lia.
  destruct (decide (t1 = t2)) as [<-|Hne]; [done|].
  assert (week_end (week_of t1) < t2) as Hlt%week_of_after_end by lia. lia.
Qed.

Lemma daily_table_dense df :
  dense_resample day_of day_of day_label df (calculate_daily_totals df).
Proof.
  apply (resample_table_dense day_of day_of day_label);
    [apply day_of_mono|apply day_of_mono|done].
Qed.

Lemma weekly_table_dense df :
  dense_resample week_of last_week_of week_label df (calculate_weekly_aggregates df).
Proof.
  apply (resample_table_dense week_of last_week_of week_label);
    [apply week_of_mono|apply last_week_of_mono|apply week_le_last].
Qed.

(** C4, as stated, fails: [resample] fills the range of each building. A
    building read on day 0 and on day 2 gets a row for day 1, with sum 0,
    although it has no reading on that day. *)
Lemma empty_day_inside_range_gets_a_row :
  readings_in day_of frame_with_gap "A" 1 = []
  ∧ calculate_daily_totals frame_with_gap
    = [Row (Some "A") (Some (day_label 0)) (of_Z 1);
       Row (Some "A") (Some (day_label 1)) fzero;
       Row (Some "A") (Some (day_label 2)) (of_Z 2)].
Proof. split; reflexivity. Qed.

(** C4, as the code has it: the daily table has exactly one row for each
    (building, day) from the first to the last day on which the building
    has a reading, with the sum of the readings of that day, which is 0 for
    a day without readings; there is no row outside that range. The weekly
    table is the same with weeks from Monday to Sunday, from the week of
    the first reading to the week of the last one; it has one more row,
    for the week after, when the last reading is at the last instant of
    its week, and only then. *)
Theorem resampled_tables_are_dense_within_range (df : DataFrame) :
  dense_resample day_of day_of day_label df (calculate_daily_totals df)
  ∧ dense_resample week_of last_week_of week_label df (calculate_weekly_aggregates df)
  ∧ ∀ t, (t ≠ week_end (week_of t) → last_week_of t = week_of t)
         ∧ (t = week_end (week_of t) → last_week_of t = week_of t + 1).
Proof.
  split; [apply daily_table_dense|]. split; [apply weekly_table_dense|].
  intros t. unfold last_week_of. split; intros H; by case_decide.
Qed.

Example weekly_buckets :
  calculate_weekly_aggregates
    [Row (Some "A") (Some 0) (of_Z 1);
     Row (Some "A") (Some (3 * ns_per_day + 5)) (of_Z 2);
     Row (Some "A") (Some (4 * ns_per_day)) (of_Z 4)]
  = [Row (Some "A") (Some (3 * ns_per_day)) (of_Z 3);
     Row (Some "A") (Some (10 * ns_per_day)) (of_Z 4)].
Proof. reflexivity. Qed.

(** A last reading at the last instant of a Sunday: the week after it gets
    a row. One nanosecond earlier it does not. *)
Example weekly_boundary :
  calculate_weekly_aggregates [Row (Some "A") (Some (4 * ns_per_day - 1)) (of_Z 1)]
  = [Row (Some "A") (Some (3 * ns_per_day)) (of_Z 1);
     Row (Some "A") (Some (10 * ns_per_day)) fzero]
  ∧ calculate_weekly_aggregates [Row (Some "A") (Some (4 * ns_per_day - 2)) (of_Z 1)]
    = [Row (Some "A") (Some (3 * ns_per_day)) (of_Z 1)].
Proof. split; reflexivity. Qed.

(** ** Building registry *)

Lemma dict_get_Some k d l : dict_get k d = Some l → (k, l) ∈ d.
Proof.
  induction d as [|[k' l'] d IH]; simpl; [done|].
  case_decide as E.
  - intros [= ->]. subst. apply list_elem_of_here.
  - intros H. by apply list_elem_of_further, IH.
Qed.

Lemma dict_get_None k d : dict_get k d = None ↔ k ∉ d.*1.
Proof.
  induction d as [|[k' l'] d IH]; simpl.
  - split; [intros _; apply not_elem_of_nil|done].
  - rewrite not_elem_of_cons. case_decide as E; simpl.
    + split; [done|]. intros [? _]. congruence.
    + rewrite IH. split; [intros ?; split; [congruence|done]|tauto].
Qed.

Lemma dict_get_snoc k d l : dict_get k d = None → dict_get k (d ++ [(k, l)]) = Some l.
Proof.
  induction d as [|[k' l'] d IH]; simpl.
  - intros _. by rewrite decide_True.
  - case_decide; [done|]. apply IH.
Qed.

Lemma wf_new_manager : wf new_manager.
Proof. constructor. Qed.

Lemma wf_get_or_create k m : wf m → wf (get_or_create k m).2.
Proof.
  unfold wf, get_or_create. intros Hwf.
  destruct (dict_get k (buildings m)); simpl; [done|].
  rewrite length_app. simpl. apply Forall_app. split.
  - eapply Forall_impl; [exact Hwf|]. simpl. intros; lia.
  - repeat constructor. simpl. lia.
Qed.

Lemma wf_add_reading l r m : wf m → wf (add_reading l r m).
Proof. unfold wf, add_reading. simpl. by rewrite length_alter. Qed.

Lemma get_or_create_registered k m :
  dict_get k (buildings (get_or_create k m).2) = Some (get_or_create k m).1.
Proof.
  unfold get_or_create.
  destruct (dict_get k (buildings m)) eqn:E; simpl; [done|].
  by apply dict_get_snoc.
Qed.

Lemma get_or_create_valid k m :
  wf m → ((get_or_create k m).1 < length (heap (get_or_create k m).2))%nat.
Proof.
  intros Hwf%(wf_get_or_create k).
  pose proof (get_or_create_registered k m) as H%dict_get_Some.
  unfold wf in Hwf. rewrite Forall_forall in Hwf. by apply Hwf in H.
Qed.

(** A handle is renewed any number of times without a change. *)
Lemma get_or_create_again k m n :
  Nat.iter n (λ hm, get_or_create k hm.2) (get_or_create k m) = get_or_create k m.
Proof.
  induction n as [|n IH]; simpl; [done|]. rewrite IH.
  unfold get_or_create at 1. rewrite get_or_create_registered.
  by destruct (get_or_create k m).
Qed.

(** C8: a second [get_or_create] with the same name, and any further one,
    returns the location the first one returned and leaves the manager as
    it was; and readings added through the two handles end up, in order, in
    the one list of the object at that location. *)
Theorem get_or_create_idempotent k m :
  get_or_create k (get_or_create k m).2 = get_or_create k m
  ∧ (∀ n, Nat.iter n (λ hm, get_or_create k hm.2) (get_or_create k m)
          = get_or_create k m)
  ∧ (wf m → ∀ r1 r2,
       meter_readings
         (heap (add_reading (get_or_create k (get_or_create k m).2).1 r2
                  (add_reading (get_or_create k m).1 r1 (get_or_create k m).2))
            !!! (get_or_create k m).1)
       = meter_readings (heap (get_or_create k m).2 !!! (get_or_create k m).1)
         ++ [r1; r2]).
Proof.
  pose proof (get_or_create_again k m 1) as E. simpl in E.
  split; [done|]. split; [apply get_or_create_again|].
  intros Hwf r1 r2. rewrite E.
  pose proof (get_or_create_valid k m Hwf) as Hlt.
  destruct (get_or_create k m) as [h m1]. simpl in *.
  rewrite !list_lookup_total_alter, length_alter.
  rewrite !decide_True by done. simpl. by rewrite <-app_assoc.
Qed.

Lemma get_or_create_idempotent_witness :
  wf new_manager
  ∧ get_or_create (Named "X") (get_or_create (Named "X") new_manager).2
    = get_or_create (Named "X") new_manager
  ∧ meter_readings
      (heap (add_reading 0%nat (mkMeterReading (Some 1) (of_Z 4))
               (add_reading 0%nat (mkMeterReading (Some 0) (of_Z 3))
                  (get_or_create (Named "X") new_manager).2)) !!! 0%nat)
    = [mkMeterReading (Some 0) (of_Z 3); mkMeterReading (Some 1) (of_Z 4)].
Proof.
  pose proof (get_or_create_idempotent (Named "X") new_manager) as (H1 & _ & H3).
  split; [exact wf_new_manager|]. split; [exact H1|].
  exact (H3 wf_new_manager (mkMeterReading (Some 0) (of_Z 3))
           (mkMeterReading (Some 1) (of_Z 4))).
Defined.

(** The scenario of the specification: two readings added through the two
    handles of "X", then a report. *)
Example two_readings_report :
  let '(h1, m1) := get_or_create (Named "X") new_manager in
  let '(h2, m2) := get_or_create (Named "X") m1 in
  let m3 := add_reading h2 (mkMeterReading (Some 1) (of_Z 4))
              (add_reading h1 (mkMeterReading (Some 0) (of_Z 3)) m2) in
  h1 = h2
  ∧ generate_report (heap m3 !!! h1)
    = Return {| r_building := Named "X"; r_total_kwh := of_Z 7;
                r_mean_kwh := fdiv_count (of_Z 7) 2; r_max_kwh := of_Z 4 |}.
Proof. split; reflexivity. Qed.

Lemma generate_report_returns b : raises (generate_report b) = false.
Proof.
  unfold generate_report. destruct (meter_readings b) as [|r l]; [done|].
  done.
Qed.

(** C9: the report of a building without readings is all zeros; the
    report never raises, because the reductions that fail or give NaN on an
    empty array ([max], [mean]) are only reached with a reading. *)
Theorem empty_building_report n :
  generate_report {| name := n; meter_readings := [] |}
  = Return {| r_building := n; r_total_kwh := fzero;
              r_mean_kwh := fzero; r_max_kwh := fzero |}
  ∧ (∀ b, raises (generate_report b) = false)
  ∧ raises (np_max []) = true
  ∧ np_mean [] = NaN.
Proof.
  split; [reflexivity|]. split; [|done].
  apply generate_report_returns.
Qed.

(** *** The rows and their name objects *)

Lemma iterrows_cons ids r (df : DataFrame) :
  iterrows ids (r :: df) = (row_key ids 0 r, r) :: iterrows (ids ∘ S) df.
Proof. done. Qed.

Lemma iterrows_snoc ids (df : DataFrame) r :
  iterrows ids (df ++ [r]) = iterrows ids df ++ [(row_key ids (length df) r, r)].
Proof. unfold iterrows. rewrite imap_app. simpl. by rewrite Nat.add_0_r. Qed.

Lemma iterrows_rows ids (df : DataFrame) : (iterrows ids df).*2 = df.
Proof.
  revert ids. induction df as [|r df IH]; intros ids; [done|].
  rewrite iterrows_cons, fmap_cons. simpl. by rewrite IH.
Qed.

Lemma row_key_name ids i r : key_name (row_key ids i r) = building r.
Proof. unfold row_key. by destruct (building r). Qed.

Lemma row_key_Named ids i r b : row_key ids i r = Named b ↔ building r = Some b.
Proof. unfold row_key. destruct (building r); split; congruence. Qed.

Lemma iterrows_names ids (df : DataFrame) :
  key_name <$> (iterrows ids df).*1 = building <$> df.
Proof.
  revert ids. induction df as [|r df IH]; intros ids; [done|].
  rewrite iterrows_cons, !fmap_cons. simpl. by rewrite IH, row_key_name.
Qed.

Lemma elem_of_iterrows ids (df : DataFrame) k r :
  (k, r) ∈ iterrows ids df ↔ ∃ i, df !! i = Some r ∧ k = row_key ids i r.
Proof.
  unfold iterrows. rewrite elem_of_lookup_imap. split.
  - intros (i & r' & [= -> ->] & Hi). eauto.
  - intros (i & Hi & ->). eauto.
Qed.

(** The rows of a building with a name, whatever the objects of the
    missing names are. *)
Lemma iterrows_named ids (df : DataFrame) b :
  (filter (λ kr, kr.1 = Named b) (iterrows ids df)).*2 = group b df.
Proof.
  unfold group. revert ids. induction df as [|r df IH]; intros ids; [done|].
  rewrite iterrows_cons, !filter_cons. simpl.
  destruct (decide (row_key ids 0 r = Named b)) as [E|E];
    destruct (decide (building r = Some b)) as [E'|E'].
  - rewrite fmap_cons. simpl. by rewrite IH.
  - destruct E'. by apply row_key_Named in E.
  - destruct E. by apply row_key_Named.
  - apply IH.
Qed.

(** *** The registry after [load_from_df] *)

Lemma loaded_nil : loaded [] new_manager.
Proof.
  split; simpl.
  - constructor.
  - done.
  - intros k l H. by apply elem_of_nil in H.
Qed.

Lemma readings_of_snoc k rows kr :
  readings_of k (rows ++ [kr]) =
  readings_of k rows ++ (if decide (kr.1 = k) then [reading_of kr.2] else []).
Proof.
  unfold readings_of. rewrite filter_app, fmap_app. f_equal.
  rewrite filter_cons, filter_nil. by case_decide.
Qed.

Lemma readings_of_absent k (rows : list (key * row)) :
  k ∉ rows.*1 → readings_of k rows = [].
Proof.
  intros Hk. unfold readings_of.
  induction rows as [|kr rows IH]; [done|].
  rewrite fmap_cons, not_elem_of_cons in Hk. destruct Hk as [Hne Hk].
  rewrite filter_cons_False by done. by apply IH.
Qed.

Lemma readings_of_named ids (df : DataFrame) b :
  readings_of (Named b) (iterrows ids df) = reading_of <$> group b df.
Proof.
  unfold readings_of. by rewrite list_fmap_compose, iterrows_named.
Qed.

Lemma dict_unique (d : list (key * loc)) k l1 l2 :
  NoDup d.*1 → (k, l1) ∈ d → (k, l2) ∈ d → l1 = l2.
Proof.
  induction d as [|[k' l'] d IH]; simpl; [by intros _ ?%elem_of_nil|].
  rewrite NoDup_cons. intros [Hk Hnd]. rewrite !elem_of_cons.
  intros [E1|H1] [E2|H2]; simplify_eq; try done.
  - destruct Hk. apply list_elem_of_fmap. by exists (k', l2).
  - destruct Hk. apply list_elem_of_fmap. by exists (k', l1).
  - by apply IH.
Qed.

Lemma loaded_step rows m kr : loaded rows m → loaded (rows ++ [kr]) (load_row m kr).
Proof.
  intros [Hnd Hkeys Hobj]. unfold load_row, get_or_create.
  destruct (dict_get kr.1 (buildings m)) as [l|] eqn:E.
  - (* the name is registered: its object gets the reading *)
    apply dict_get_Some in E. split; simpl.
    + done.
    + intros k. rewrite Hkeys, fmap_app, elem_of_app. simpl.
      split; [auto|]. intros [?|Hk%list_elem_of_singleton]; [done|]. subst k.
      apply Hkeys, list_elem_of_fmap. by exists (kr.1, l).
    + intros k l' Hin. rewrite readings_of_snoc.
      destruct (decide (l = l')) as [<-|Hne].
      * pose proof (Hobj _ _ E) as HE. pose proof (Hobj _ _ Hin) as Hk.
        assert (k = kr.1) as -> by congruence.
        rewrite list_lookup_alter_eq, HE. simpl.
        by rewrite decide_True.
      * rewrite list_lookup_alter_ne by done. rewrite (Hobj _ _ Hin).
        rewrite decide_False, app_nil_r; [done|].
        intros <-. apply Hne. by eapply dict_unique.
  - (* a new name: a fresh object with this one reading *)
    apply dict_get_None in E. split; simpl.
    + rewrite fmap_app. apply NoDup_app. split; [done|]. split.
      * intros k Hk Hk'%list_elem_of_singleton. by subst k.
      * apply NoDup_singleton.
    + intros k. rewrite !fmap_app, !elem_of_app, Hkeys. simpl.
      by rewrite !list_elem_of_singleton.
    + intros k l'. rewrite elem_of_app, list_elem_of_singleton, readings_of_snoc.
      intros [Hin|[= -> ->]].
      * pose proof (Hobj _ _ Hin) as Hl.
        assert (l' < length (heap m))%nat as Hlt by (by eapply lookup_lt_Some).
        rewrite list_lookup_alter_ne by lia.
        rewrite lookup_app_l by done. rewrite Hl.
        rewrite decide_False, app_nil_r; [done|].
        intros <-. apply E, list_elem_of_fmap. by exists (kr.1, l').
      * rewrite list_lookup_alter_eq, list_lookup_middle by done. simpl.
        rewrite decide_True by done.
        rewrite readings_of_absent; [done|]. by rewrite <-Hkeys.
Qed.

Lemma loaded_load_rows rows : loaded rows (foldl load_row new_manager rows).
Proof.
  induction rows as [|kr rows IH] using rev_ind.
  - apply loaded_nil.
  - rewrite foldl_snoc. by apply loaded_step.
Qed.

Lemma loaded_load_from_df ids df :
  loaded (iterrows ids df) (load_from_df ids df new_manager).
Proof. apply loaded_load_rows. Qed.

(** *** The two summaries *)

Lemma collect_Return {A} (l : list A) : collect (Return <$> l) = Return l.
Proof.
  induction l as [|x l IH]; [done|].
  rewrite fmap_cons. cbn [collect]. by rewrite IH.
Qed.

Lemma filter_notna_id l :
  Forall (λ x, x ≠ NaN) l → filter (λ x, notna x = true) l = l.
Proof.
  induction 1 as [|x l Hx _ IH]; [done|].
  rewrite filter_cons_True, IH; [done|]. by destruct x.
Qed.

Lemma report_agrees b (g : DataFrame) :
  g ≠ [] →
  Forall (λ r, kwh r ≠ NaN) g →
  generate_report {| name := Named b; meter_readings := reading_of <$> g |}
  = Return (report_of_summary (summarise b g)).
Proof.
  intros Hne Hall.
  assert (Forall (λ x, x ≠ NaN) (kwh <$> g)) as Hvals by (by apply Forall_fmap).
  unfold generate_report, report_of_summary, summarise,
    pd_sum, pd_mean, pd_max. simpl.
  rewrite (filter_notna_id _ Hvals), <-list_fmap_compose.
  change (mr_kwh ∘ reading_of) with kwh.
  destruct g as [|r g]; [done|]. done.
Qed.

(** C7, as stated, fails on the set of buildings: the registry makes an
    accumulator for the rows without a building name, and [groupby] leaves
    these rows out. *)
Lemma registry_keeps_rows_without_building :
  load_and_merge stable_kind dir_unnamed = Return ([Row None (Some 0) (of_Z 5)], [])
  ∧ summary_table (load_from_df boxed [Row None (Some 0) (of_Z 5)] new_manager)
    = Return [ {| r_building := Unnamed 0; r_total_kwh := of_Z 5;
                  r_mean_kwh := fdiv_count (of_Z 5) 1; r_max_kwh := of_Z 5 |} ]
  ∧ building_wise_summary [Row None (Some 0) (of_Z 5)] = [].
Proof. repeat split. Qed.

(** C7, as the code has it: on a frame whose rows all name a building and
    hold a number, the registry loaded from the frame reports without
    error, and its reports are the rows of [building_wise_summary] (total,
    mean and maximum, building by building), up to the order of the rows. *)
Theorem registry_matches_summary ids (df : DataFrame) :
  Forall (λ r, is_Some (building r) ∧ kwh r ≠ NaN) df →
  ∃ reports,
    summary_table (load_from_df ids df new_manager) = Return reports
    ∧ reports ≡ₚ report_of_summary <$> building_wise_summary df.
Proof.
  intros Hall. rewrite Forall_forall in Hall.
  destruct (loaded_load_from_df ids df) as [Hnd Hkeys Hobj].
  set (m := load_from_df ids df new_manager) in *.
  set (F := λ k : key,
         match k with
         | Named b => report_of_summary (summarise b (group b df))
         | Unnamed _ =>
             {| r_building := k; r_total_kwh := NaN; r_mean_kwh := NaN; r_max_kwh := NaN |}
         end).
  assert (∀ k, k ∈ (iterrows ids df).*1 ↔ ∃ b, k = Named b ∧ b ∈ group_keys df) as Hk.
  { intros k. rewrite list_elem_of_fmap. split.
    - intros ([k' r] & -> & (i & Hi & ->)%elem_of_iterrows). simpl.
      apply list_elem_of_lookup_2 in Hi. destruct (Hall r Hi) as [[b Hb] _].
      exists b. split; [by apply row_key_Named|]. apply elem_of_group_keys. eauto.
    - intros (b & -> & (r & [i Hi]%list_elem_of_lookup & Hb)%elem_of_group_keys).
      exists (Named b, r). split; [done|]. apply elem_of_iterrows.
      exists i. split; [done|]. symmetry. by apply row_key_Named. }
  exists (F <$> (buildings m).*1). split.
  - unfold summary_table. rewrite <-collect_Return. f_equal.
    rewrite <-!list_fmap_compose. apply Forall_fmap_ext, Forall_forall.
    intros [k l] Hin. simpl.
    rewrite (list_lookup_total_correct _ _ _ (Hobj _ _ Hin)).
    assert (k ∈ (iterrows ids df).*1) as Hk'.
    { apply Hkeys, list_elem_of_fmap. by exists (k, l). }
    apply Hk in Hk' as (b & -> & (r & Hr & Hb)%elem_of_group_keys).
    rewrite readings_of_named. simpl. apply report_agrees.
    + intros E. assert (r ∈ group b df) as Hg
        by (apply list_elem_of_filter; split; done).
      rewrite E in Hg. by apply elem_of_nil in Hg.
    + apply Forall_forall. intros r' [_ Hr']%list_elem_of_filter.
      by apply Hall.
  - unfold building_wise_summary.
    rewrite <-(list_fmap_compose _ report_of_summary).
    rewrite (list_fmap_ext (report_of_summary ∘ (λ b, summarise b (group b df)))
               (F ∘ Named) (group_keys df)) by done.
    rewrite (list_fmap_compose Named F).
    apply fmap_Permutation, NoDup_Permutation.
    + done.
    + apply NoDup_fmap_2; [|apply group_keys_NoDup]. by intros x y [= ->].
    + intros k. rewrite Hkeys, Hk, list_elem_of_fmap. done.
Qed.

Lemma registry_matches_summary_witness :
  Forall (λ r, is_Some (building r) ∧ kwh r ≠ NaN) two_buildings
  ∧ ∃ reports,
      summary_table (load_from_df shared two_buildings new_manager) = Return reports
      ∧ reports ≡ₚ report_of_summary <$> building_wise_summary two_buildings.
Proof.
  assert (Forall (λ r, is_Some (building r) ∧ kwh r ≠ NaN) two_buildings) as H.
  { repeat (constructor; [split; [by eexists|done]|]). constructor. }
  split; [exact H|].
  exact (registry_matches_summary shared two_buildings H).
Defined.

Example two_buildings_registry :
  summary_table (load_from_df shared two_buildings new_manager)
  = Return [ {| r_building := Named "B"; r_total_kwh := of_Z 10;
                r_mean_kwh := fdiv_count (of_Z 10) 1; r_max_kwh := of_Z 10 |};
             {| r_building := Named "A"; r_total_kwh := of_Z 12;
                r_mean_kwh := fdiv_count (of_Z 12) 2; r_max_kwh := of_Z 7 |} ].
Proof. reflexivity. Qed.
(** ** The scenario of the specification *)

Example scenario_loaded :
  ∃ m, load_and_merge stable_kind scenario = Return (m, ["Missing file: C.csv"])
       ∧ length m = 25%nat
       ∧ building_wise_summary m
         = [ {| s_building := "A"; mean_kwh := fdiv_count (of_Z 120) 24;
                min_kwh := of_Z 5; max_kwh := of_Z 5; total_kwh := of_Z 120 |};
             {| s_building := "B"; mean_kwh := fdiv_count (of_Z 10) 1;
                min_kwh := of_Z 10; max_kwh := of_Z 10; total_kwh := of_Z 10 |} ].
Proof. eexists. split; [reflexivity|]. split; reflexivity. Qed.

(** The means of the scenario are 5 and 10. *)
Example scenario_means :
  fdiv_count (of_Z 120) 24 = of_Z 5 ∧ fdiv_count (of_Z 10) 1 = of_Z 10.
Proof.
  split; unfold fdiv_count, of_Z; f_equal; apply Qc_is_canon; reflexivity.
Qed.

(** * Further properties of the loader *)

(** ** Validation is a filter *)





(** The first cell decides: behind a garbled first line every text is read
    in its own format; without that line the format of the new first line
    is the format of the column, and the line in another format is
    dropped. *)
Example first_cell_decides_the_format :
  (clean "m.csv" (CsvTable ["timestamp"; "kwh"]
     [RawRow Garbled (Parsed (of_Z 9)) None;
      RawRow (Stamp naive 0) (Parsed (of_Z 1)) None;
      RawRow (Stamp slashes 5) (Parsed (of_Z 2)) None])).*1
  = [Row (Some "m") (Some 0) (of_Z 1); Row (Some "m") (Some 5) (of_Z 2)]
  ∧ (clean "m.csv" (CsvTable ["timestamp"; "kwh"]
       [RawRow (Stamp naive 0) (Parsed (of_Z 1)) None;
        RawRow (Stamp slashes 5) (Parsed (of_Z 2)) None])).*1
    = [Row (Some "m") (Some 0) (of_Z 1)].
Proof. split; reflexivity. Qed.

(** ** The fallback name of a building *)

Lemma string_length_app s1 s2 :
  String.length (s1 +:+ s2) = (String.length s1 + String.length s2)%nat.
Proof. induction s1 as [|c s1 IH]; simpl; [done|]. by rewrite IH. Qed.

Lemma substring_app_l s1 s2 : String.substring 0 (String.length s1) (s1 +:+ s2) = s1.
Proof.
  induction s1 as [|c s1 IH]; simpl.
  - by destruct s2.
  - by rewrite IH.
Qed.

Lemma substring_app_r s1 s2 m :
  String.substring (String.length s1) m (s1 +:+ s2) = String.substring 0 m s2.
Proof. induction s1 as [|c s1 IH]; simpl; [done|]. apply IH. Qed.

Lemma rfind_dot_csv s : rfind_dot (s +:+ ".csv") = Some (String.length s).
Proof. induction s as [|c s IH]; simpl; [done|]. by rewrite IH. Qed.

Lemma endswith_csv s : endswith (s +:+ ".csv") ".csv" = true.
Proof.
  unfold endswith. rewrite string_length_app.
  change (String.length ".csv") with 4%nat.
  replace (String.length s + 4 - 4)%nat with (String.length s) by lia.
  rewrite substring_app_r, (proj2 (Nat.leb_le 4 _)) by lia. reflexivity.
Qed.

Lemma stem_csv s : s ≠ "" → stem (s +:+ ".csv") = s.
Proof.
  intros Hs. unfold stem. rewrite rfind_dot_csv, string_length_app.
  change (String.length ".csv") with 4%nat.
  assert (0 < String.length s)%nat as Hlen by (destruct s; [done|simpl; lia]).
  rewrite (proj2 (Nat.ltb_lt _ _)) by done.
  rewrite (proj2 (Nat.ltb_lt _ _)) by lia. simpl.
  apply substring_app_l.
Qed.

(** X2: a file [base.csv] is a source, and a source without a [building]
    column gets [base] as the building of every row; a source with the
    column keeps its cells as they were read, also the empty ones. *)
Theorem fallback_building_is_the_stem base t :
  base ≠ "" →
  endswith (base +:+ ".csv") ".csv" = true
  ∧ ("building" ∉ columns t →
     Forall (λ r, building r = Some base) (clean (base +:+ ".csv") t).*1)
  ∧ ("building" ∈ columns t →
     building <$> (clean (base +:+ ".csv") t).*1
     = raw_building <$> filter (well_formed (mode_of t)) (lines t)).
Proof.
  intros Hbase. split; [apply endswith_csv|]. rewrite clean_filter. split.
  - intros Hcol. rewrite <-list_fmap_compose.
    apply Forall_fmap, Forall_forall. intros r _. simpl.
    rewrite bool_decide_eq_false_2 by done. by rewrite stem_csv.
  - intros Hcol. rewrite <-!list_fmap_compose. apply list_fmap_ext.
    intros i r _. simpl. by rewrite bool_decide_eq_true_2.
Qed.

Lemma fallback_building_is_the_stem_witness :
  "building_a" ≠ ""
  ∧ Forall (λ r, building r = Some "building_a")
      (clean ("building_a" +:+ ".csv")
         (CsvTable ["timestamp"; "kwh"]
            [RawRow (Stamp naive 0) (Parsed (of_Z 10)) None])).*1.
Proof.
  assert ("building_a" ≠ "") as H by done.
  split; [exact H|].
  refine (proj1 (proj2 (fallback_building_is_the_stem "building_a"
    (CsvTable ["timestamp"; "kwh"] [RawRow (Stamp naive 0) (Parsed (of_Z 10)) None]) H)) _).
  simpl. by intros [[=]|[[=]|?%elem_of_nil]%elem_of_cons]%elem_of_cons.
Defined.

(** ** One bad source never aborts the run *)

Lemma skipped_contributes_nothing e :
  skipped e →
  read_error_of e = None ∧ frame_of e = None ∧ is_Some (message_of e).
Proof.
  unfold skipped, read_error_of, frame_of, message_of.
  destruct e as [n [|msg|t]]; simpl; [by eauto|done|].
  intros ->. by eauto.
Qed.

(** X3: a source that is gone when it is read, or that lacks one of the
    two columns, changes nothing in the outcome of the load but the log:
    the merged frame, or the error, is the one of the directory without it,
    and the log has its one message more. *)
Theorem skipped_source_only_adds_a_message K d1 d2 e :
  endswith e.1 ".csv" = true →
  skipped e →
  merged_of (load_and_merge K (d1 ++ e :: d2)) = merged_of (load_and_merge K (d1 ++ d2))
  ∧ ∀ m log, load_and_merge K (d1 ++ d2) = Return (m, log) →
      ∃ msg log', message_of e = Some msg
        ∧ load_and_merge K (d1 ++ e :: d2) = Return (m, log')
        ∧ log' ≡ₚ msg :: log.
Proof.
  intros He (Herr & Hframe & [msg Hmsg])%skipped_contributes_nothing.
  assert (omap message_of (sorted (glob_csv (d1 ++ e :: d2)))
          ≡ₚ msg :: omap message_of (sorted (glob_csv (d1 ++ d2)))) as Hlog.
  { rewrite !sorted_perm, glob_csv_keep, glob_csv_app by done.
    rewrite <-Permutation_middle. by rewrite omap_cons_eq, Hmsg. }
  rewrite !load_and_merge_spec, glob_csv_keep, glob_csv_app by done.
  rewrite !(omap_sorted_skip _ _ _ e) by done.
  rewrite glob_csv_keep, glob_csv_app in Hlog by done.
  destruct (omap read_error_of _); [|by split].
  destruct (omap frame_of _); [by split|]. cbn zeta.
  destruct (comparable _); [|by split]. split; [done|].
  intros m log [= <- <-]. eauto.
Qed.

Lemma skipped_source_only_adds_a_message_witness :
  endswith "C.csv" ".csv" = true
  ∧ merged_of (load_and_merge stable_kind
                 ([] ++ ("C.csv", Vanished) :: [("b.csv", Vanished);
                    ("a.csv", Table (CsvTable ["timestamp"; "kwh"]
                                [RawRow (Stamp naive 3) (Parsed (of_Z 2)) None]))]))
    = merged_of (load_and_merge stable_kind
                   ([] ++ [("b.csv", Vanished);
                      ("a.csv", Table (CsvTable ["timestamp"; "kwh"]
                                  [RawRow (Stamp naive 3) (Parsed (of_Z 2)) None]))])).
Proof.
  split; [reflexivity|].
  refine (proj1 (skipped_source_only_adds_a_message stable_kind [] _ (_, Vanished) _ _)).
  - reflexivity.
  - exact I.
Defined.

(** ** The order in which the directory lists its files *)

(** X4: the outcome of the load does not depend on the order in which the
    directory lists its files (file names are distinct in a directory). *)
Theorem load_and_merge_ignores_listing_order K d d' :
  d ≡ₚ d' →
  NoDup d.*1 →
  load_and_merge K d = load_and_merge K d'.
Proof.
  intros Hp Hnd. unfold load_and_merge.
  assert (sorted (glob_csv d) = sorted (glob_csv d')) as ->; [|done].
  unfold sorted. apply (sort_by_unique path_leb path_leb_trans path_leb_total).
  - unfold glob_csv. by rewrite Hp.
  - intros x y [_ Hx]%list_elem_of_filter [_ Hy]%list_elem_of_filter H1 H2.
    apply (entry_of_name d); [done..|]. by apply String.leb_antisym.
Qed.

Lemma load_and_merge_ignores_listing_order_witness :
  scenario ≡ₚ reverse scenario
  ∧ NoDup scenario.*1
  ∧ load_and_merge stable_kind scenario = load_and_merge stable_kind (reverse scenario).
Proof.
  assert (scenario ≡ₚ reverse scenario) as Hp by (by rewrite reverse_Permutation).
  assert (NoDup scenario.*1) as Hnd.
  { apply (bool_decide_unpack (NoDup scenario.*1)). vm_compute. exact I. }
  split; [exact Hp|]. split; [exact Hnd|].
  exact (load_and_merge_ignores_listing_order stable_kind scenario (reverse scenario)
           Hp Hnd).
Defined.

(** * Further properties of the reductions *)

(** ** The order of the floats *)

Lemma fle_refl x : x ≠ NaN → fle x x = true.
Proof. destruct x; simpl; try done. intros _. by apply bool_decide_eq_true_2. Qed.

Lemma fle_total x y : x ≠ NaN → y ≠ NaN → fle x y = true ∨ fle y x = true.
Proof.
  destruct x as [a| | |], y as [b| | |]; simpl; try done; auto.
  intros _ _. rewrite !bool_decide_eq_true.
  destruct (Qclt_le_dec a b) as [H|H]; [left; by apply Qclt_le_weak|by right].
Qed.

Lemma fle_trans x y z : fle x y = true → fle y z = true → fle x z = true.
Proof.
  destruct x as [a| | |], y as [b| | |], z as [c| | |]; simpl; try done.
  rewrite !bool_decide_eq_true. apply Qcle_trans.
Qed.

Lemma fle_antisym x y : fle x y = true → fle y x = true → x = y.
Proof.
  destruct x as [a| | |], y as [b| | |]; simpl; try done.
  rewrite !bool_decide_eq_true. intros H1 H2. f_equal. by apply Qcle_antisym.
Qed.

Lemma fle_not_nan x y : fle x y = true → x ≠ NaN ∧ y ≠ NaN.
Proof. by destruct x, y. Qed.

Lemma fmax_spec x y :
  x ≠ NaN → y ≠ NaN →
  (fmax x y = x ∨ fmax x y = y) ∧ fle x (fmax x y) = true ∧ fle y (fmax x y) = true.
Proof.
  intros Hx Hy.
  assert (fmax x y = if fle x y then y else x) as -> by (by destruct x, y).
  destruct (fle x y) eqn:E.
  - split; [by right|]. split; [done|by apply fle_refl].
  - split; [by left|]. split; [by apply fle_refl|].
    destruct (fle_total x y); congruence.
Qed.

Lemma fmin_spec x y :
  x ≠ NaN → y ≠ NaN →
  (fmin x y = x ∨ fmin x y = y) ∧ fle (fmin x y) x = true ∧ fle (fmin x y) y = true.
Proof.
  intros Hx Hy.
  assert (fmin x y = if fle x y then x else y) as -> by (by destruct x, y).
  destruct (fle x y) eqn:E.
  - split; [by left|]. split; [by apply fle_refl|done].
  - split; [by right|]. split; [|by apply fle_refl].
    destruct (fle_total x y); congruence.
Qed.

(** The fold of [fmax] returns an entry that no entry exceeds. *)
Lemma foldl_fmax_spec x l :
  Forall (λ y, y ≠ NaN) (x :: l) →
  foldl fmax x l ∈ x :: l ∧ Forall (λ y, fle y (foldl fmax x l) = true) (x :: l).
Proof.
  revert x. induction l as [|y l IH]; intros x Hall.
  - simpl. split; [apply list_elem_of_here|].
    constructor; [|constructor]. apply fle_refl. by inversion Hall.
  - inversion Hall as [|? ? Hx Hl]; subst. inversion Hl as [|? ? Hy Hl']; subst.
    destruct (fmax_spec x y Hx Hy) as (Hm & Hxm & Hym).
    assert (fmax x y ≠ NaN) as Hm' by (by destruct Hm as [-> | ->]).
    destruct (IH (fmax x y)) as [Hin Hle]; [by constructor|].
    cbn [foldl]. split.
    + apply elem_of_cons in Hin as [->|Hin].
      * destruct Hm as [-> | ->];
          [apply list_elem_of_here|apply list_elem_of_further, list_elem_of_here].
      * by do 2 apply list_elem_of_further.
    + inversion Hle as [|? ? Hle1 Hle2]; subst.
      constructor; [by eapply fle_trans|]. constructor; [by eapply fle_trans|done].
Qed.

Lemma foldl_fmin_spec x l :
  Forall (λ y, y ≠ NaN) (x :: l) →
  foldl fmin x l ∈ x :: l ∧ Forall (λ y, fle (foldl fmin x l) y = true) (x :: l).
Proof.
  revert x. induction l as [|y l IH]; intros x Hall.
  - simpl. split; [apply list_elem_of_here|].
    constructor; [|constructor]. apply fle_refl. by inversion Hall.
  - inversion Hall as [|? ? Hx Hl]; subst. inversion Hl as [|? ? Hy Hl']; subst.
    destruct (fmin_spec x y Hx Hy) as (Hm & Hxm & Hym).
    assert (fmin x y ≠ NaN) as Hm' by (by destruct Hm as [-> | ->]).
    destruct (IH (fmin x y)) as [Hin Hle]; [by constructor|].
    cbn [foldl]. split.
    + apply elem_of_cons in Hin as [->|Hin].
      * destruct Hm as [-> | ->];
          [apply list_elem_of_here|apply list_elem_of_further, list_elem_of_here].
      * by do 2 apply list_elem_of_further.
    + inversion Hle as [|? ? Hle1 Hle2]; subst.
      constructor; [by eapply fle_trans|]. constructor; [by eapply fle_trans|done].
Qed.

Lemma filter_notna_Forall l : Forall (λ y, y ≠ NaN) (filter (λ x, notna x = true) l).
Proof.
  apply Forall_forall. intros y [Hy _]%list_elem_of_filter. by destruct y.
Qed.

(** [max] with [skipna]: NaN when there is no number, else a number of the
    column that no number of the column exceeds. *)
Lemma pd_max_spec l :
  match filter (λ x, notna x = true) l with
  | [] => pd_max l = NaN
  | _ => pd_max l ∈ l ∧ pd_max l ≠ NaN
         ∧ ∀ y, y ∈ l → y ≠ NaN → fle y (pd_max l) = true
  end.
Proof.
  unfold pd_max. pose proof (filter_notna_Forall l) as Hall.
  destruct (filter (λ x, notna x = true) l) as [|x k] eqn:E; [done|].
  destruct (foldl_fmax_spec x k Hall) as [Hin Hle].
  rewrite <-E in Hin, Hle. apply list_elem_of_filter in Hin as [Hn Hin].
  split; [done|]. split; [by destruct (foldl fmax x k)|].
  intros y Hy Hyn. rewrite Forall_forall in Hle. apply Hle.
  apply list_elem_of_filter. split; [by destruct y|done].
Qed.

Lemma pd_min_spec l :
  match filter (λ x, notna x = true) l with
  | [] => pd_min l = NaN
  | _ => pd_min l ∈ l ∧ pd_min l ≠ NaN
         ∧ ∀ y, y ∈ l → y ≠ NaN → fle (pd_min l) y = true
  end.
Proof.
  unfold pd_min. pose proof (filter_notna_Forall l) as Hall.
  destruct (filter (λ x, notna x = true) l) as [|x k] eqn:E; [done|].
  destruct (foldl_fmin_spec x k Hall) as [Hin Hle].
  rewrite <-E in Hin, Hle. apply list_elem_of_filter in Hin as [Hn Hin].
  split; [done|]. split; [by destruct (foldl fmin x k)|].
  intros y Hy Hyn. rewrite Forall_forall in Hle. apply Hle.
  apply list_elem_of_filter. split; [by destruct y|done].
Qed.

(** * Further properties of the registry *)

(** ** Reports *)

Lemma np_sum_NaN l : NaN ∈ l → np_sum l = NaN.
Proof.
  induction l as [|x l IH]; [by intros ?%elem_of_nil|].
  intros [<-|Hl]%elem_of_cons; [done|].
  change (np_sum (x :: l)) with (fadd x (np_sum l)). rewrite IH by done.
  by destruct x.
Qed.

Lemma foldl_fmax_NaN x l : NaN ∈ x :: l → foldl fmax x l = NaN.
Proof.
  revert x. induction l as [|y l IH]; intros x.
  - by intros [<-|?%elem_of_nil]%elem_of_cons.
  - intros Hin. cbn [foldl]. apply IH.
    apply elem_of_cons in Hin as [<-|[<-|Hin]%elem_of_cons].
    + apply list_elem_of_here.
    + replace (fmax x NaN) with NaN by (by destruct x). apply list_elem_of_here.
    + by apply list_elem_of_further.
Qed.

Lemma generate_report_cons b r l :
  meter_readings b = r :: l →
  generate_report b
  = Return {| r_building := name b;
              r_total_kwh := np_sum (mr_kwh <$> r :: l);
              r_mean_kwh := fdiv_count (np_sum (mr_kwh <$> r :: l)) (length (r :: l));
              r_max_kwh := foldl fmax (mr_kwh r) (mr_kwh <$> l) |}.
Proof.
  intros E. unfold generate_report. rewrite E. simpl. by rewrite length_fmap.
Qed.

(** X5: the report of a building with readings, none of them NaN: the
    total is their sum, the mean is the total divided by their number, and
    the maximum is one of them that none exceeds. *)
Theorem report_of_a_building_with_readings b :
  meter_readings b ≠ [] →
  Forall (λ r, mr_kwh r ≠ NaN) (meter_readings b) →
  ∃ rep, generate_report b = Return rep
    ∧ r_building rep = name b
    ∧ r_total_kwh rep = np_sum (mr_kwh <$> meter_readings b)
    ∧ r_mean_kwh rep = fdiv_count (r_total_kwh rep) (length (meter_readings b))
    ∧ r_max_kwh rep ∈ mr_kwh <$> meter_readings b
    ∧ Forall (λ r, fle (mr_kwh r) (r_max_kwh rep) = true) (meter_readings b).
Proof.
  intros Hne Hall. destruct (meter_readings b) as [|r l] eqn:E; [done|].
  eexists. split; [by apply generate_report_cons|]. simpl.
  assert (Forall (λ y, y ≠ NaN) (mr_kwh r :: (mr_kwh <$> l))) as Hvals.
  { rewrite <-fmap_cons. by apply Forall_fmap. }
  destruct (foldl_fmax_spec _ _ Hvals) as [Hin Hle].
  repeat split; try done.
  rewrite <-fmap_cons in Hle. by apply Forall_fmap in Hle.
Qed.

Lemma report_of_a_building_with_readings_witness :
  ∃ rep, generate_report (mkBuilding (Named "X")
           [mkMeterReading (Some 0) (of_Z 3); mkMeterReading (Some 1) (of_Z 4)])
         = Return rep
    ∧ r_max_kwh rep ∈ [of_Z 3; of_Z 4].
Proof.
  destruct (report_of_a_building_with_readings (mkBuilding (Named "X")
    [mkMeterReading (Some 0) (of_Z 3); mkMeterReading (Some 1) (of_Z 4)]))
    as (rep & H1 & _ & _ & _ & H2 & _).
  - done.
  - repeat constructor; done.
  - by exists rep.
Defined.

(** X6: a reading that is NaN makes the total, the mean and the maximum of
    the report NaN (the numpy reductions do not skip it). *)
Theorem report_with_a_nan_reading b :
  NaN ∈ mr_kwh <$> meter_readings b →
  generate_report b
  = Return {| r_building := name b; r_total_kwh := NaN;
              r_mean_kwh := NaN; r_max_kwh := NaN |}.
Proof.
  intros Hin. destruct (meter_readings b) as [|r l] eqn:E.
  { by apply elem_of_nil in Hin. }
  rewrite (generate_report_cons b r l E), (np_sum_NaN _ Hin). simpl.
  by rewrite foldl_fmax_NaN.
Qed.

Lemma report_with_a_nan_reading_witness :
  generate_report (mkBuilding (Named "X")
    [mkMeterReading (Some 0) (of_Z 3); mkMeterReading (Some 1) NaN])
  = Return {| r_building := Named "X"; r_total_kwh := NaN;
              r_mean_kwh := NaN; r_max_kwh := NaN |}.
Proof.
  apply (report_with_a_nan_reading (mkBuilding (Named "X")
    [mkMeterReading (Some 0) (of_Z 3); mkMeterReading (Some 1) NaN])).
  simpl. apply list_elem_of_further, list_elem_of_here.
Defined.

(** ** The objects of the registry *)

Lemma consistent_new_manager : consistent new_manager.
Proof.
  split; simpl; [constructor|]. intros k l H. by apply elem_of_nil in H.
Qed.

Lemma consistent_get_or_create k m : consistent m → consistent (get_or_create k m).2.
Proof.
  intros [Hnd Hobj]. unfold get_or_create.
  destruct (dict_get k (buildings m)) eqn:E; simpl; [by split|].
  apply dict_get_None in E. split; simpl.
  - rewrite fmap_app. apply NoDup_app. split; [done|]. split; [|apply NoDup_singleton].
    intros k' Hk' Hk''%list_elem_of_singleton. by subst k'.
  - intros k' l'. rewrite elem_of_app, list_elem_of_singleton.
    intros [Hin|[= -> ->]].
    + destruct (Hobj _ _ Hin) as (b & Hb & Hn). exists b. split; [|done].
      by apply lookup_app_l_Some.
    + eexists. split; [by apply list_lookup_middle|done].
Qed.

Lemma consistent_add_reading l r m : consistent m → consistent (add_reading l r m).
Proof.
  intros [Hnd Hobj]. split; simpl; [done|].
  intros k l' Hin. destruct (Hobj _ _ Hin) as (b & Hb & Hn).
  destruct (decide (l = l')) as [->|Hne].
  - eexists. split; [by rewrite list_lookup_alter_eq, Hb|done].
  - exists b. split; [|done]. by rewrite list_lookup_alter_ne.
Qed.

Lemma consistent_load_row m r : consistent m → consistent (load_row m r).
Proof.
  intros Hm. unfold load_row.
  pose proof (consistent_get_or_create r.1 m Hm) as H.
  destruct (get_or_create r.1 m) as [h m']. by apply consistent_add_reading.
Qed.

Lemma consistent_wf m : consistent m → wf m.
Proof.
  intros [_ Hobj]. apply Forall_forall. intros [k l] Hin.
  destruct (Hobj _ _ Hin) as (b & Hb & _). simpl. by eapply lookup_lt_Some.
Qed.

Lemma get_or_create_object k m :
  consistent m →
  ∃ b, heap (get_or_create k m).2 !! (get_or_create k m).1 = Some b ∧ name b = k.
Proof.
  intros [_ Hobj]%(consistent_get_or_create k).
  apply Hobj, dict_get_Some, get_or_create_registered.
Qed.

Lemma get_or_create_keeps_objects k m l b :
  heap m !! l = Some b → heap (get_or_create k m).2 !! l = Some b.
Proof.
  intros Hb. unfold get_or_create.
  destruct (dict_get k (buildings m)); simpl; [done|]. by apply lookup_app_l_Some.
Qed.

Lemma consistent_load_rows rows m : consistent m → consistent (foldl load_row m rows).
Proof.
  revert m. induction rows as [|kr rows IH]; intros m Hm; [done|].
  simpl. by apply IH, consistent_load_row.
Qed.

Lemma named_keys_NoDup (ks : list key) : NoDup ks → NoDup (omap key_name ks).
Proof.
  induction 1 as [|k ks Hk Hnd IH]; [constructor|].
  destruct k as [s|i]; simpl; [|done].
  constructor; [|done]. rewrite list_elem_of_omap.
  intros ([s'|i'] & Hin & [= <-]). done.
Qed.

(** X7: the operations of the registry keep its state consistent: after any
    sequence of [get_or_create], [add_reading] and [load_from_df] on a new
    manager the keys of the dict are distinct objects and each entry refers
    to a live object of its name. No string is the name of two entries;
    missing names are distinct keys as far as they are distinct objects, so
    that several entries can show a missing name. *)
Theorem registry_stays_consistent m :
  consistent m →
  (∀ k, consistent (get_or_create k m).2)
  ∧ (∀ l r, consistent (add_reading l r m))
  ∧ (∀ ids df, consistent (load_from_df ids df m))
  ∧ wf m
  ∧ NoDup (omap key_name (buildings m).*1).
Proof.
  intros Hm. split; [|split; [|split; [|split]]].
  - intros k. by apply consistent_get_or_create.
  - intros l r. by apply consistent_add_reading.
  - intros ids df. by apply consistent_load_rows.
  - by apply consistent_wf.
  - apply named_keys_NoDup. by destruct Hm.
Qed.

Lemma registry_stays_consistent_witness :
  consistent new_manager
  ∧ consistent (load_from_df boxed [Row None (Some 0) (of_Z 5); Row None (Some 1) (of_Z 6)]
                  new_manager).
Proof.
  split; [exact consistent_new_manager|].
  exact (proj1 (proj2 (proj2 (registry_stays_consistent new_manager
           consistent_new_manager))) boxed
           [Row None (Some 0) (of_Z 5); Row None (Some 1) (of_Z 6)]).
Defined.

(** Two rows without a building name. When each row yields a float object
    of its own, the dict gets two keys, both NaN, with an object of one
    reading each; when both rows yield the one [np.nan] object, the dict
    gets one key, with an object of two readings. *)
Example two_unnamed_rows :
  let df := [Row None (Some 0) (of_Z 5); Row None (Some 1) (of_Z 6)] in
  load_from_df boxed df new_manager
  = {| heap := [ {| name := Unnamed 0;
                    meter_readings := [mkMeterReading (Some 0) (of_Z 5)] |};
                 {| name := Unnamed 1;
                    meter_readings := [mkMeterReading (Some 1) (of_Z 6)] |} ];
       buildings := [(Unnamed 0, 0%nat); (Unnamed 1, 1%nat)] |}
  ∧ key_name <$> (buildings (load_from_df boxed df new_manager)).*1 = [None; None]
  ∧ load_from_df shared df new_manager
    = {| heap := [ {| name := Unnamed 0;
                      meter_readings := [mkMeterReading (Some 0) (of_Z 5);
                                         mkMeterReading (Some 1) (of_Z 6)] |} ];
         buildings := [(Unnamed 0, 0%nat)] |}.
Proof. repeat split. Qed.

(** X8: two different names have two different accumulators: the handles
    that [get_or_create] returns for them differ, the second call leaves the
    object of the first as it was, and a reading added through one handle
    is appended to its object and leaves the other object as it was. *)
Theorem accumulators_are_separate m k1 k2 r :
  consistent m →
  k1 ≠ k2 →
  (get_or_create k1 m).1
    ≠ (get_or_create k2 (get_or_create k1 m).2).1
  ∧ heap (get_or_create k2 (get_or_create k1 m).2).2 !! (get_or_create k1 m).1
    = heap (get_or_create k1 m).2 !! (get_or_create k1 m).1
  ∧ heap (add_reading (get_or_create k1 m).1 r
            (get_or_create k2 (get_or_create k1 m).2).2)
      !! (get_or_create k2 (get_or_create k1 m).2).1
    = heap (get_or_create k2 (get_or_create k1 m).2).2
      !! (get_or_create k2 (get_or_create k1 m).2).1
  ∧ meter_readings
      (heap (add_reading (get_or_create k1 m).1 r
               (get_or_create k2 (get_or_create k1 m).2).2)
         !!! (get_or_create k1 m).1)
    = meter_readings (heap (get_or_create k1 m).2 !!! (get_or_create k1 m).1) ++ [r].
Proof.
  intros Hm Hk.
  destruct (get_or_create_object k1 m Hm) as (b1 & Hb1 & Hn1).
  pose proof (consistent_get_or_create k1 m Hm) as Hm1.
  destruct (get_or_create k1 m) as [h1 m1]. simpl in *.
  destruct (get_or_create_object k2 m1 Hm1) as (b2 & Hb2 & Hn2).
  pose proof (get_or_create_keeps_objects k2 m1 h1 b1 Hb1) as Hb1'.
  destruct (get_or_create k2 m1) as [h2 m2]. simpl in *.
  assert (h1 ≠ h2) as Hne by (intros ->; congruence).
  split; [done|]. split; [congruence|]. split.
  - by rewrite list_lookup_alter_ne.
  - rewrite (list_lookup_total_correct _ _ _ Hb1).
    erewrite list_lookup_total_correct;
      [|by rewrite list_lookup_alter_eq, Hb1'].
    done.
Qed.

Lemma accumulators_are_separate_witness :
  consistent new_manager
  ∧ Named "A" ≠ Named "B"
  ∧ (get_or_create (Named "A") new_manager).1
    ≠ (get_or_create (Named "B") (get_or_create (Named "A") new_manager).2).1.
Proof.
  assert (Named "A" ≠ Named "B") as H by done.
  split; [exact consistent_new_manager|]. split; [exact H|].
  exact (proj1 (accumulators_are_separate new_manager (Named "A") (Named "B")
           (mkMeterReading (Some 0) (of_Z 3)) consistent_new_manager H)).
Defined.

(** ** The order of the dict *)

Lemma get_or_create_keys k m :
  (buildings (get_or_create k m).2).*1
  = (buildings m).*1 ++ (if decide (k ∈ (buildings m).*1) then [] else [k]).
Proof.
  unfold get_or_create. destruct (dict_get k (buildings m)) as [l|] eqn:E; simpl.
  - rewrite decide_True, app_nil_r; [done|].
    apply dict_get_Some in E. apply list_elem_of_fmap. by exists (k, l).
  - apply dict_get_None in E. by rewrite decide_False, fmap_app.
Qed.

Lemma load_row_keys m kr :
  (buildings (load_row m kr)).*1
  = (buildings m).*1
    ++ (if decide (kr.1 ∈ (buildings m).*1) then [] else [kr.1]).
Proof.
  unfold load_row. rewrite <-get_or_create_keys.
  by destruct (get_or_create kr.1 m).
Qed.

Lemma first_occurrences_elem_of {A} `{EqDecision A} (l : list A) x :
  x ∈ first_occurrences l ↔ x ∈ l.
Proof.
  induction l as [|y l IH]; simpl; [done|].
  rewrite !elem_of_cons, list_elem_of_filter, IH.
  destruct (decide (x = y)) as [->|Hne]; [tauto|]. tauto.
Qed.

Lemma first_occurrences_NoDup {A} `{EqDecision A} (l : list A) :
  NoDup (first_occurrences l).
Proof.
  induction l as [|y l IH]; simpl; [constructor|].
  constructor; [|by apply NoDup_filter].
  rewrite list_elem_of_filter. by intros [? _].
Qed.

Lemma filter_all {A} (P : A → Prop) `{∀ x, Decision (P x)} (l : list A) :
  Forall P l → filter P l = l.
Proof.
  induction 1 as [|x l Hx _ IH]; [done|]. by rewrite filter_cons_True, IH.
Qed.

Lemma filter_none {A} (P : A → Prop) `{∀ x, Decision (P x)} (l : list A) :
  Forall (λ x, ¬ P x) l → filter P l = [].
Proof.
  induction 1 as [|x l Hx _ IH]; [done|]. by rewrite filter_cons_False.
Qed.

Lemma load_rows_keys (rows : list (key * row)) m :
  (buildings (foldl load_row m rows)).*1
  = (buildings m).*1
    ++ filter (λ k, k ∉ (buildings m).*1) (first_occurrences rows.*1).
Proof.
  revert m. induction rows as [|kr rows IH]; intros m.
  - simpl. by rewrite app_nil_r.
  - cbn [foldl]. rewrite IH, load_row_keys. clear IH.
    rewrite fmap_cons. cbn [first_occurrences].
    set (ks := (buildings m).*1). set (F := first_occurrences rows.*1).
    destruct (decide (kr.1 ∈ ks)) as [Hin|Hin].
    + rewrite app_nil_r, filter_cons_False by tauto. f_equal.
      rewrite list_filter_filter. apply list_filter_iff. intros k.
      split; [|tauto]. intros Hk. split; [done|]. by intros ->.
    + rewrite filter_cons_True, <-app_assoc by done. simpl. do 2 f_equal.
      rewrite list_filter_filter. apply list_filter_iff. intros k.
      rewrite elem_of_app, list_elem_of_singleton. tauto.
Qed.

Lemma named_filter_ne s (ks : list key) :
  omap key_name (filter (λ k, k ≠ Named s) ks) = filter (λ b, b ≠ s) (omap key_name ks).
Proof.
  induction ks as [|[s'|i] ks IH]; [done|..].
  - destruct (decide (s' = s)) as [->|Hne].
    + rewrite filter_cons_False by (by intros H; apply H). simpl.
      rewrite filter_cons_False by (by intros H; apply H). done.
    + rewrite filter_cons_True by congruence. cbn [omap list_omap key_name].
      rewrite filter_cons_True by done. by rewrite IH.
  - rewrite filter_cons_True by done. done.
Qed.

Lemma named_filter_unnamed i (ks : list key) :
  omap key_name (filter (λ k, k ≠ Unnamed i) ks) = omap key_name ks.
Proof.
  induction ks as [|[s'|i'] ks IH]; [done|..].
  - rewrite filter_cons_True by done. cbn [omap list_omap key_name]. by rewrite IH.
  - rewrite filter_cons. case_decide; cbn [omap list_omap key_name]; done.
Qed.

(** The strings among the first occurrences of the keys are the first
    occurrences of the strings. *)
Lemma named_first_occurrences (ks : list key) :
  omap key_name (first_occurrences ks) = first_occurrences (omap key_name ks).
Proof.
  induction ks as [|[s|i] ks IH]; [done|..];
    cbn [first_occurrences omap list_omap key_name].
  - by rewrite named_filter_ne, IH.
  - by rewrite named_filter_unnamed, IH.
Qed.

Lemma omap_fmap_id {A B} (f : A → option B) (l : list A) :
  omap f l = omap id (f <$> l).
Proof.
  induction l as [|x l IH]; [done|]. rewrite fmap_cons. cbn [omap list_omap].
  destruct (f x); simpl; congruence.
Qed.

Lemma iterrows_named_keys ids (df : DataFrame) :
  omap key_name (iterrows ids df).*1 = omap building df.
Proof.
  by rewrite (omap_fmap_id key_name), iterrows_names, <-omap_fmap_id.
Qed.

(** With an object of its own for every missing name, a row without a name
    is the only row of its key. *)
Lemma iterrows_unnamed ids (df : DataFrame) i r :
  Inj (=) (=) ids → df !! i = Some r → building r = None →
  filter (λ kr, kr.1 = Unnamed (ids i)) (iterrows ids df) = [(Unnamed (ids i), r)].
Proof.
  intros Hinj. revert ids Hinj i. induction df as [|r0 df IH]; intros ids Hinj i Hi Hb; [done|].
  rewrite iterrows_cons.
  assert (Inj (=) (=) (ids ∘ S)) as Hinj' by (intros x y E; apply Hinj in E; lia).
  destruct i as [|i]; simpl in Hi.
  - injection Hi as ->.
    rewrite filter_cons_True by (simpl; unfold row_key; by rewrite Hb).
    unfold row_key at 1. rewrite Hb. f_equal.
    apply filter_none, Forall_forall.
    intros [k r'] (j & _ & ->)%elem_of_iterrows. simpl. unfold row_key.
    destruct (building r'); [done|]. intros [= E]. apply Hinj in E. lia.
  - rewrite filter_cons_False.
    + apply (IH (ids ∘ S) Hinj' i Hi Hb).
    + simpl. unfold row_key. destruct (building r0); [done|].
      intros [= E]. apply Hinj in E. lia.
Qed.

(** X9: after [load_from_df] on a new manager the dict holds the name
    objects of the rows in the order of their first row, and the object of
    each of them holds the readings of its rows in the order of the rows,
    with the timestamp and the kwh of each row. So the building names of
    the frame are in the dict in the order of their first row, each with
    the readings of the rows of that name; and when every row without a
    name yields an object of its own, each such row has an entry of its
    own, with its one reading. *)
Theorem registry_keeps_load_order ids (df : DataFrame) :
  (buildings (load_from_df ids df new_manager)).*1
  = first_occurrences (iterrows ids df).*1
  ∧ (∀ k l, (k, l) ∈ buildings (load_from_df ids df new_manager) →
      heap (load_from_df ids df new_manager) !! l
      = Some {| name := k;
                meter_readings :=
                  (λ kr, {| mr_timestamp := timestamp kr.2; mr_kwh := kwh kr.2 |})
                    <$> filter (λ kr, kr.1 = k) (iterrows ids df) |})
  ∧ omap key_name (buildings (load_from_df ids df new_manager)).*1
    = first_occurrences (omap building df)
  ∧ (∀ b l, (Named b, l) ∈ buildings (load_from_df ids df new_manager) →
      heap (load_from_df ids df new_manager) !! l
      = Some {| name := Named b;
                meter_readings :=
                  (λ r, {| mr_timestamp := timestamp r; mr_kwh := kwh r |})
                    <$> filter (λ r, building r = Some b) df |})
  ∧ (Inj (=) (=) ids → ∀ i r, df !! i = Some r → building r = None →
      ∃ l, (Unnamed (ids i), l) ∈ buildings (load_from_df ids df new_manager)
           ∧ heap (load_from_df ids df new_manager) !! l
             = Some {| name := Unnamed (ids i);
                       meter_readings :=
                         [ {| mr_timestamp := timestamp r; mr_kwh := kwh r |} ] |}).
Proof.
  assert ((buildings (load_from_df ids df new_manager)).*1
          = first_occurrences (iterrows ids df).*1) as Hkeys.
  { unfold load_from_df. rewrite load_rows_keys. simpl.
    apply filter_all, Forall_forall. intros k _. apply not_elem_of_nil. }
  destruct (loaded_load_from_df ids df) as [_ Hin Hobj].
  split; [done|]. split; [apply Hobj|]. split; [|split].
  - by rewrite Hkeys, named_first_occurrences, iterrows_named_keys.
  - intros b l Hl. rewrite (Hobj _ _ Hl). by rewrite readings_of_named.
  - intros Hinj i r Hi Hb.
    assert (Unnamed (ids i) ∈ (buildings (load_from_df ids df new_manager)).*1) as Hk.
    { apply Hin, list_elem_of_fmap. exists (Unnamed (ids i), r). split; [done|].
      apply elem_of_iterrows. exists i. split; [done|]. unfold row_key. by rewrite Hb. }
    apply list_elem_of_fmap in Hk as ([k l] & E & Hl). simpl in E. subst k.
    exists l. split; [done|]. rewrite (Hobj _ _ Hl). unfold readings_of.
    by rewrite (iterrows_unnamed ids df i r Hinj Hi Hb).
Qed.

Example two_buildings_order :
  (buildings (load_from_df shared two_buildings new_manager)).*1 = [Named "B"; Named "A"].
Proof. reflexivity. Qed.

(** * Further properties of the aggregator *)

(** ** Totals by key *)

(** The totals of the rows of each key, over a duplicate-free list of keys
    that covers the frame, add up to the total of the frame. *)
Lemma keyed_totals_sum {K} `{EqDecision K} (key : row → option K) ks (df : DataFrame) :
  NoDup ks →
  Forall (λ r, ∃ k, k ∈ ks ∧ key r = Some k) df →
  np_sum ((λ k, pd_sum (kwh <$> filter (λ r, key r = Some k) df)) <$> ks)
  = pd_sum (kwh <$> df).
Proof.
  intros Hnd. revert df. induction Hnd as [|k ks Hk Hnd IH]; intros df Hcov.
  - destruct df as [|r df]; [done|].
    inversion Hcov as [|? ? (b & Hb & _)]; subst. by apply elem_of_nil in Hb.
  - rewrite fmap_cons. change (np_sum (?x :: ?l)) with (fadd x (np_sum l)).
    rewrite <-(pd_sum_split (λ r, key r = Some k) df).
    f_equal. rewrite <-IH.
    + f_equal. apply Forall_fmap_ext, Forall_forall. intros b Hb.
      rewrite list_filter_filter. do 2 f_equal. apply list_filter_iff.
      intros r. split; [|tauto]. intros E. split; [done|].
      rewrite E. intros [= ->]. done.
    + apply Forall_forall. intros r Hr.
      apply list_elem_of_filter in Hr as [Hr1 Hr2].
      rewrite Forall_forall in Hcov. destruct (Hcov r Hr2) as (b & Hb & Eb).
      exists b. split; [|done]. apply elem_of_cons in Hb as [->|Hb]; [done|done].
Qed.

Section ResampleTotals.
Context (bucket last label : Z → Z).
Hypothesis bucket_mono : ∀ t1 t2, t1 ≤ t2 → bucket t1 ≤ bucket t2.
Hypothesis last_mono : ∀ t1 t2, t1 ≤ t2 → last t1 ≤ last t2.
Hypothesis bucket_le_last : ∀ t, bucket t ≤ last t.

Lemma resample_sum_total b (g : DataFrame) :
  Forall (λ r, is_Some (timestamp r)) g →
  np_sum (kwh <$> resample_sum bucket last label b g) = pd_sum (kwh <$> g).
Proof.
  intros Hts. unfold resample_sum.
  pose proof (elem_of_timestamps g) as Hb.
  destruct (omap timestamp g) as [|t0 rest].
  - destruct g as [|r g]; [done|]. exfalso.
    inversion Hts as [|? ? [t Ht] _]; subst.
    assert (t ∈ @nil Z) as H; [|by apply elem_of_nil in H].
    apply Hb. exists r. split; [apply list_elem_of_here|done].
  - destruct (list_min_spec t0 rest) as [_ Hlo].
    destruct (list_max_spec t0 rest) as [_ Hhi].
    rewrite Forall_forall in Hlo, Hhi.
    cbn zeta. rewrite <-list_fmap_compose.
    apply (keyed_totals_sum (bucket_of bucket)); [apply NoDup_seqZ|].
    apply Forall_forall. intros r Hr. rewrite Forall_forall in Hts.
    destruct (Hts r Hr) as [t Ht]. exists (bucket t). split.
    + assert (t ∈ t0 :: rest) as Hin by (apply Hb; eauto).
      apply elem_of_seqZ.
      pose proof (bucket_mono _ _ (Hlo _ Hin)).
      pose proof (last_mono _ _ (Hhi _ Hin)).
      pose proof (bucket_le_last t). lia.
    + unfold bucket_of. by rewrite Ht.
Qed.

Lemma filter_building_join b (f : string → DataFrame) ks :
  NoDup ks →
  (∀ b' r, r ∈ f b' → building r = Some b') →
  filter (λ r, building r = Some b) (mjoin (f <$> ks))
  = if decide (b ∈ ks) then f b else [].
Proof.
  intros Hnd Hf. induction Hnd as [|k ks Hk Hnd IH]; [done|].
  rewrite fmap_cons.
  change (mjoin (f k :: (f <$> ks))) with (f k ++ mjoin (f <$> ks)).
  rewrite filter_app, IH.
  destruct (decide (b = k)) as [->|Hne].
  - rewrite (decide_False (P := k ∈ ks)), app_nil_r by done.
    rewrite (decide_True (P := k ∈ k :: ks)) by apply list_elem_of_here.
    apply filter_all, Forall_forall. intros r. apply Hf.
  - assert (filter (λ r, building r = Some b) (f k) = []) as ->.
    { apply filter_none, Forall_forall. intros r Hr%Hf E. congruence. }
    destruct (decide (b ∈ ks)) as [Hin|Hin].
    + by rewrite (decide_True (P := b ∈ k :: ks)) by (by apply list_elem_of_further).
    + rewrite (decide_False (P := b ∈ k :: ks)); [done|].
      by intros [->|?]%elem_of_cons.
Qed.
End ResampleTotals.

(** ** The daily and weekly totals of a building *)

Section ResampleTables.
Context (bucket last label : Z → Z).
Hypothesis bucket_mono : ∀ t1 t2, t1 ≤ t2 → bucket t1 ≤ bucket t2.
Hypothesis last_mono : ∀ t1 t2, t1 ≤ t2 → last t1 ≤ last t2.
Hypothesis bucket_le_last : ∀ t, bucket t ≤ last t.

Lemma resample_table_of_building b (df : DataFrame) :
  filter (λ r, building r = Some b) (resample_table bucket last label df)
  = resample_sum bucket last label b (group b df).
Proof.
  unfold resample_table.
  rewrite (filter_building_join b (λ b', resample_sum bucket last label b' (group b' df)));
    [|apply group_keys_NoDup|intros b' r; apply resample_sum_building].
  case_decide as Hb; [done|].
  assert (group b df = []) as ->; [|done].
  apply filter_none, Forall_forall. intros r Hr E. apply Hb.
  apply elem_of_group_keys. eauto.
Qed.

Lemma resample_table_total b (df : DataFrame) :
  Forall (λ r, is_Some (timestamp r)) df →
  np_sum (kwh <$> filter (λ r, building r = Some b) (resample_table bucket last label df))
  = pd_sum (kwh <$> group b df).
Proof.
  intros Hts. rewrite resample_table_of_building. apply resample_sum_total; try done.
  apply Forall_forall. intros r [_ Hr]%list_elem_of_filter.
  rewrite Forall_forall in Hts. by apply Hts.
Qed.
End ResampleTables.

Lemma daily_table_total b (df : DataFrame) :
  Forall (λ r, is_Some (timestamp r)) df →
  np_sum (kwh <$> filter (λ r, building r = Some b) (calculate_daily_totals df))
  = pd_sum (kwh <$> group b df).
Proof.
  apply resample_table_total; [apply day_of_mono|apply day_of_mono|done].
Qed.

Lemma weekly_table_total b (df : DataFrame) :
  Forall (λ r, is_Some (timestamp r)) df →
  np_sum (kwh <$> filter (λ r, building r = Some b) (calculate_weekly_aggregates df))
  = pd_sum (kwh <$> group b df).
Proof.
  apply resample_table_total;
    [apply week_of_mono|apply last_week_of_mono|apply week_le_last].
Qed.

(** X10: on a frame whose rows all have a timestamp, the daily totals of a
    building add up to the sum of its readings, and so do its weekly totals;
    for a building of the summary this sum is its [total_kwh]. No reading is
    lost or counted twice by the resampling. (Sums are exact in the model:
    the floating-point sums agree up to rounding.) *)
Theorem period_totals_add_up_to_building_total (df : DataFrame) b :
  Forall (λ r, is_Some (timestamp r)) df →
  np_sum (kwh <$> filter (λ r, building r = Some b) (calculate_daily_totals df))
  = pd_sum (kwh <$> group b df)
  ∧ np_sum (kwh <$> filter (λ r, building r = Some b) (calculate_weekly_aggregates df))
    = pd_sum (kwh <$> group b df)
  ∧ ∀ s, s ∈ building_wise_summary df → s_building s = b →
      total_kwh s
      = np_sum (kwh <$> filter (λ r, building r = Some b) (calculate_daily_totals df)).
Proof.
  intros Hts. split; [by apply daily_table_total|].
  split; [by apply weekly_table_total|].
  intros s (b' & -> & _)%list_elem_of_fmap <-. simpl.
  symmetry. by apply daily_table_total.
Qed.

Lemma period_totals_add_up_to_building_total_witness :
  Forall (λ r, is_Some (timestamp r)) frame_with_gap
  ∧ np_sum (kwh <$> filter (λ r, building r = Some "A")
                      (calculate_daily_totals frame_with_gap))
    = pd_sum (kwh <$> group "A" frame_with_gap).
Proof.
  assert (Forall (λ r, is_Some (timestamp r)) frame_with_gap) as H.
  { repeat constructor; by eexists. }
  split; [exact H|].
  exact (proj1 (period_totals_add_up_to_building_total frame_with_gap "A" H)).
Defined.

(** ** The period of a reading *)

Lemma day_label_bounds t :
  day_label (day_of t) ≤ t < day_label (day_of t) + ns_per_day.
Proof.
  unfold day_label, day_of.
  assert (0 < ns_per_day) as Hpos by done.
  pose proof (Z.mul_div_le t ns_per_day Hpos).
  pose proof (Z.mul_succ_div_gt t ns_per_day Hpos). lia.
Qed.

Lemma week_label_bounds t :
  day_of (week_label (week_of t)) = 7 * week_of t + 10
  ∧ (day_of (week_label (week_of t)) - 3) `mod` 7 = 0
  ∧ day_of t ≤ day_of (week_label (week_of t)) ≤ day_of t + 6.
Proof.
  assert (day_of (week_label (week_of t)) = 7 * week_of t + 10) as ->.
  { unfold week_label, day_of at 1. by rewrite Z.div_mul. }
  split; [done|]. unfold week_of. split.
  - replace (7 * ((day_of t - 4) `div` 7) + 10 - 3)
      with (((day_of t - 4) `div` 7 + 1) * 7) by lia.
    apply Z.mod_mul. lia.
  - pose proof (Z.mul_div_le (day_of t - 4) 7 eq_refl).
    pose proof (Z.mul_succ_div_gt (day_of t - 4) 7 eq_refl). lia.
Qed.

Lemma reading_in_its_bucket bucket (df : DataFrame) r b t :
  r ∈ df → building r = Some b → timestamp r = Some t →
  r ∈ readings_in bucket df b (bucket t).
Proof.
  intros Hr Hb Ht. unfold readings_in, in_bucket, group, bucket_of.
  rewrite !list_elem_of_filter. by rewrite Ht.
Qed.

(** X11: a reading of building [b] at the instant [t] is counted in the row
    of the daily totals that is labelled with the midnight that starts the
    day of [t], and in no other row. *)
Theorem reading_is_counted_in_its_day (df : DataFrame) r b t :
  r ∈ df → building r = Some b → timestamp r = Some t →
  day_label (day_of t) ≤ t < day_label (day_of t) + ns_per_day
  ∧ resampled_row day_of day_label df b (day_of t) ∈ calculate_daily_totals df
  ∧ r ∈ readings_in day_of df b (day_of t)
  ∧ ∀ i, r ∈ readings_in day_of df b i → i = day_of t.
Proof.
  intros Hr Hb Ht. split; [apply day_label_bounds|].
  pose proof (reading_in_its_bucket day_of df r b t Hr Hb Ht) as Hin.
  split; [|split; [done|]].
  - apply daily_table_dense.
    intros E. rewrite E in Hin. by apply elem_of_nil in Hin.
  - intros i. unfold readings_in, in_bucket, bucket_of.
    rewrite list_elem_of_filter, Ht. by intros [[= <-] _].
Qed.

Lemma reading_is_counted_in_its_day_witness :
  Row (Some "A") (Some (2 * ns_per_day)) (of_Z 2) ∈ frame_with_gap
  ∧ resampled_row day_of day_label frame_with_gap "A" (day_of (2 * ns_per_day))
    ∈ calculate_daily_totals frame_with_gap.
Proof.
  assert (Row (Some "A") (Some (2 * ns_per_day)) (of_Z 2) ∈ frame_with_gap) as H.
  { apply list_elem_of_further, list_elem_of_here. }
  split; [exact H|].
  exact (proj1 (proj2 (reading_is_counted_in_its_day frame_with_gap _ "A"
           (2 * ns_per_day) H eq_refl eq_refl))).
Defined.

(** X12: a reading of building [b] at the instant [t] is counted in the row
    of the weekly totals that is labelled with the midnight that starts the
    first Sunday on or after the day of [t], and in no other row. *)
Theorem reading_is_counted_in_its_week (df : DataFrame) r b t :
  r ∈ df → building r = Some b → timestamp r = Some t →
  (day_of (week_label (week_of t)) - 3) `mod` 7 = 0
  ∧ day_of t ≤ day_of (week_label (week_of t)) ≤ day_of t + 6
  ∧ week_label (week_of t) = day_label (day_of (week_label (week_of t)))
  ∧ resampled_row week_of week_label df b (week_of t) ∈ calculate_weekly_aggregates df
  ∧ r ∈ readings_in week_of df b (week_of t)
  ∧ ∀ i, r ∈ readings_in week_of df b i → i = week_of t.
Proof.
  intros Hr Hb Ht. destruct (week_label_bounds t) as (Hd & Hsun & Hrange).
  split; [done|]. split; [done|]. split.
  { rewrite Hd. unfold week_label, day_label. done. }
  pose proof (reading_in_its_bucket week_of df r b t Hr Hb Ht) as Hin.
  split; [|split; [done|]].
  - apply weekly_table_dense.
    intros E. rewrite E in Hin. by apply elem_of_nil in Hin.
  - intros i. unfold readings_in, in_bucket, bucket_of.
    rewrite list_elem_of_filter, Ht. by intros [[= <-] _].
Qed.

Lemma reading_is_counted_in_its_week_witness :
  Row (Some "A") (Some (2 * ns_per_day)) (of_Z 2) ∈ frame_with_gap
  ∧ day_of (2 * ns_per_day) ≤ day_of (week_label (week_of (2 * ns_per_day)))
    ≤ day_of (2 * ns_per_day) + 6.
Proof.
  assert (Row (Some "A") (Some (2 * ns_per_day)) (of_Z 2) ∈ frame_with_gap) as H.
  { apply list_elem_of_further, list_elem_of_here. }
  split; [exact H|].
  exact (proj1 (proj2 (reading_is_counted_in_its_week frame_with_gap _ "A"
           (2 * ns_per_day) H eq_refl eq_refl))).
Defined.

(** ** The statistics of the building summary *)

Lemma group_kwh_numbers (df : DataFrame) b :
  Forall (λ r, kwh r ≠ NaN) df → b ∈ group_keys df →
  Forall (λ x, x ≠ NaN) (kwh <$> group b df) ∧ kwh <$> group b df ≠ [].
Proof.
  intros Hn Hb. split.
  - apply Forall_fmap, Forall_forall. intros r [_ Hr]%list_elem_of_filter.
    rewrite Forall_forall in Hn. by apply Hn.
  - apply elem_of_group_keys in Hb as (r & Hr & Eb).
    assert (kwh r ∈ kwh <$> group b df) as Hin.
    { apply list_elem_of_fmap. exists r. split; [done|].
      by apply list_elem_of_filter. }
    intros E. rewrite E in Hin. by apply elem_of_nil in Hin.
Qed.

(** X13: in a frame without NaN readings, the minimum and the maximum that
    the summary gives for a building are readings of that building, and
    every reading of the building lies between them. *)
Theorem summary_extremes_are_readings (df : DataFrame) s :
  Forall (λ r, kwh r ≠ NaN) df →
  s ∈ building_wise_summary df →
  (∃ r, r ∈ df ∧ building r = Some (s_building s) ∧ kwh r = min_kwh s)
  ∧ (∃ r, r ∈ df ∧ building r = Some (s_building s) ∧ kwh r = max_kwh s)
  ∧ ∀ r, r ∈ df → building r = Some (s_building s) →
      fle (min_kwh s) (kwh r) = true ∧ fle (kwh r) (max_kwh s) = true.
Proof.
  intros Hn (b & -> & Hb)%list_elem_of_fmap. cbn [summarise s_building min_kwh max_kwh].
  destruct (group_kwh_numbers df b Hn Hb) as [Hall Hne].
  pose proof (pd_min_spec (kwh <$> group b df)) as Hmin.
  pose proof (pd_max_spec (kwh <$> group b df)) as Hmax.
  rewrite (filter_notna_id _ Hall) in Hmin, Hmax.
  destruct (kwh <$> group b df) as [|x l] eqn:E; [done|]. rewrite <-E in *.
  destruct Hmin as (Hmin_in & _ & Hmin_le), Hmax as (Hmax_in & _ & Hmax_le).
  assert (∀ v, v ∈ kwh <$> group b df →
               ∃ r, r ∈ df ∧ building r = Some b ∧ kwh r = v) as Hrow.
  { intros v (r & -> & [Eb Hr]%list_elem_of_filter)%list_elem_of_fmap. eauto. }
  split; [by apply Hrow|]. split; [by apply Hrow|].
  intros r Hr Eb.
  assert (kwh r ∈ kwh <$> group b df) as Hin.
  { apply list_elem_of_fmap. exists r. split; [done|]. by apply list_elem_of_filter. }
  rewrite Forall_forall in Hn. split; [apply Hmin_le|apply Hmax_le]; auto.
Qed.

Lemma summary_extremes_are_readings_witness :
  Forall (λ r, kwh r ≠ NaN) frame_with_gap
  ∧ summarise "A" (group "A" frame_with_gap) ∈ building_wise_summary frame_with_gap
  ∧ ∀ r, r ∈ frame_with_gap → building r = Some "A" →
      fle (of_Z 1) (kwh r) = true ∧ fle (kwh r) (of_Z 2) = true.
Proof.
  assert (Forall (λ r, kwh r ≠ NaN) frame_with_gap) as Hn.
  { repeat constructor; done. }
  assert (summarise "A" (group "A" frame_with_gap)
          ∈ building_wise_summary frame_with_gap) as Hs.
  { apply list_elem_of_here. }
  split; [exact Hn|]. split; [exact Hs|].
  exact (proj2 (proj2 (summary_extremes_are_readings frame_with_gap _ Hn Hs))).
Defined.

(** ** The aggregates and the order of the rows *)

Lemma np_sum_perm l l' : l ≡ₚ l' → np_sum l = np_sum l'.
Proof.
  unfold np_sum. induction 1 as [|x l l' _ IH|x y l|l1 l2 l3 _ IH1 _ IH2]; simpl.
  - done.
  - by rewrite IH.
  - by rewrite !fadd_assoc, (fadd_comm y x).
  - by rewrite IH1.
Qed.

Lemma pd_sum_perm l l' : l ≡ₚ l' → pd_sum l = pd_sum l'.
Proof. intros Hp. unfold pd_sum. apply np_sum_perm. by rewrite Hp. Qed.

Lemma pd_mean_perm l l' : l ≡ₚ l' → pd_mean l = pd_mean l'.
Proof.
  intros Hp. unfold pd_mean, np_mean.
  assert (filter (λ x, notna x = true) l ≡ₚ filter (λ x, notna x = true) l') as Hf
    by (by rewrite Hp).
  destruct (filter (λ x, notna x = true) l) as [|x k] eqn:E.
  - by apply Permutation_nil_l in Hf as <-.
  - destruct (filter (λ x, notna x = true) l') as [|x' k'] eqn:E'.
    { by apply Permutation_nil_r in Hf. }
    by rewrite (np_sum_perm _ _ Hf), (Permutation_length Hf).
Qed.

Lemma pd_max_perm l l' : l ≡ₚ l' → pd_max l = pd_max l'.
Proof.
  intros Hp. pose proof (pd_max_spec l) as H. pose proof (pd_max_spec l') as H'.
  assert (filter (λ x, notna x = true) l ≡ₚ filter (λ x, notna x = true) l') as Hf
    by (by rewrite Hp).
  destruct (filter (λ x, notna x = true) l) as [|x k].
  - apply Permutation_nil_l in Hf. rewrite <-Hf in H'. congruence.
  - destruct (filter (λ x, notna x = true) l') as [|x' k'].
    { by apply Permutation_nil_r in Hf. }
    destruct H as (Hin & Hn & Hle), H' as (Hin' & Hn' & Hle').
    apply fle_antisym.
    + apply Hle'; [by rewrite <-Hp|done].
    + apply Hle; [by rewrite Hp|done].
Qed.

Lemma pd_min_perm l l' : l ≡ₚ l' → pd_min l = pd_min l'.
Proof.
  intros Hp. pose proof (pd_min_spec l) as H. pose proof (pd_min_spec l') as H'.
  assert (filter (λ x, notna x = true) l ≡ₚ filter (λ x, notna x = true) l') as Hf
    by (by rewrite Hp).
  destruct (filter (λ x, notna x = true) l) as [|x k].
  - apply Permutation_nil_l in Hf. rewrite <-Hf in H'. congruence.
  - destruct (filter (λ x, notna x = true) l') as [|x' k'].
    { by apply Permutation_nil_r in Hf. }
    destruct H as (Hin & Hn & Hle), H' as (Hin' & Hn' & Hle').
    apply fle_antisym.
    + apply Hle; [by rewrite Hp|done].
    + apply Hle'; [by rewrite <-Hp|done].
Qed.

Lemma list_min_perm x l y l' : x :: l ≡ₚ y :: l' → list_min x l = list_min y l'.
Proof.
  intros Hp.
  destruct (list_min_spec x l) as [Hin Hle], (list_min_spec y l') as [Hin' Hle'].
  rewrite Forall_forall in Hle, Hle'.
  apply Z.le_antisymm; [apply Hle; by rewrite Hp|apply Hle'; by rewrite <-Hp].
Qed.

Lemma list_max_perm x l y l' : x :: l ≡ₚ y :: l' → list_max x l = list_max y l'.
Proof.
  intros Hp.
  destruct (list_max_spec x l) as [Hin Hle], (list_max_spec y l') as [Hin' Hle'].
  rewrite Forall_forall in Hle, Hle'.
  apply Z.le_antisymm; [apply Hle'; by rewrite <-Hp|apply Hle; by rewrite Hp].
Qed.

Lemma group_keys_perm (df df' : DataFrame) : df ≡ₚ df' → group_keys df = group_keys df'.
Proof.
  intros Hp. unfold group_keys.
  apply (sort_by_unique String.leb string_leb_trans String.leb_total).
  - apply NoDup_Permutation; [apply NoDup_remove_dups..|].
    intros b. rewrite !elem_of_remove_dups. by rewrite Hp.
  - intros x y _ _. apply String.leb_antisym.
Qed.

Lemma group_perm b (df df' : DataFrame) : df ≡ₚ df' → group b df ≡ₚ group b df'.
Proof. intros Hp. unfold group. by rewrite Hp. Qed.

Lemma summarise_perm b (g g' : DataFrame) : g ≡ₚ g' → summarise b g = summarise b g'.
Proof.
  intros Hp. unfold summarise.
  assert (kwh <$> g ≡ₚ kwh <$> g') as Hk by (by rewrite Hp).
  by rewrite (pd_mean_perm _ _ Hk), (pd_min_perm _ _ Hk), (pd_max_perm _ _ Hk),
    (pd_sum_perm _ _ Hk).
Qed.

Lemma resample_sum_perm bucket last label b (g g' : DataFrame) :
  g ≡ₚ g' → resample_sum bucket last label b g = resample_sum bucket last label b g'.
Proof.
  intros Hp. unfold resample_sum.
  assert (omap timestamp g ≡ₚ omap timestamp g') as Hb by (by rewrite Hp).
  destruct (omap timestamp g) as [|i rest].
  - by apply Permutation_nil_l in Hb as <-.
  - destruct (omap timestamp g') as [|i' rest'].
    { by apply Permutation_nil_r in Hb. }
    cbn zeta. rewrite (list_min_perm _ _ _ _ Hb), (list_max_perm _ _ _ _ Hb).
    apply list_fmap_ext. intros _ j _. f_equal.
    apply pd_sum_perm. unfold in_bucket. by rewrite Hp.
Qed.

Lemma resample_table_perm bucket last label (df df' : DataFrame) :
  df ≡ₚ df' →
  resample_table bucket last label df = resample_table bucket last label df'.
Proof.
  intros Hp. unfold resample_table. rewrite (group_keys_perm _ _ Hp).
  f_equal. apply list_fmap_ext. intros _ b _.
  apply resample_sum_perm. by apply group_perm.
Qed.

Lemma building_wise_summary_perm (df df' : DataFrame) :
  df ≡ₚ df' → building_wise_summary df = building_wise_summary df'.
Proof.
  intros Hp. unfold building_wise_summary. rewrite (group_keys_perm _ _ Hp).
  apply list_fmap_ext. intros _ b _. apply summarise_perm. by apply group_perm.
Qed.

(** X14: the three tables of the aggregator do not depend on the order of
    the rows of the frame: the same buildings and periods in the same order,
    with the same minima, maxima and sums. (Sums are exact in the model: the
    floating-point sums and means agree up to rounding.) *)
Theorem aggregates_ignore_row_order (df df' : DataFrame) :
  df ≡ₚ df' →
  building_wise_summary df = building_wise_summary df'
  ∧ calculate_daily_totals df = calculate_daily_totals df'
  ∧ calculate_weekly_aggregates df = calculate_weekly_aggregates df'.
Proof.
  intros Hp. split; [by apply building_wise_summary_perm|].
  split; by apply resample_table_perm.
Qed.

Lemma aggregates_ignore_row_order_witness :
  two_buildings ≡ₚ reverse two_buildings
  ∧ building_wise_summary two_buildings = building_wise_summary (reverse two_buildings).
Proof.
  assert (two_buildings ≡ₚ reverse two_buildings) as Hp.
  { symmetry. apply reverse_Permutation. }
  split; [exact Hp|].
  exact (proj1 (aggregates_ignore_row_order two_buildings (reverse two_buildings) Hp)).
Defined.

(** X15: the three tables computed from the merged frame are the same
    whatever the sorting algorithm of [sort_values] does with readings of
    equal timestamps, although the merged frames differ. (Sums are exact in
    the model: the floating-point sums and means agree up to rounding.) *)
Theorem aggregates_ignore_the_sort_kind K1 K2 d df1 df2 :
  merged_of (load_and_merge K1 d) = Return df1 →
  merged_of (load_and_merge K2 d) = Return df2 →
  building_wise_summary df1 = building_wise_summary df2
  ∧ calculate_daily_totals df1 = calculate_daily_totals df2
  ∧ calculate_weekly_aggregates df1 = calculate_weekly_aggregates df2.
Proof.
  intros H1 H2.
  destruct (load_and_merge K1 d) as [[m1 l1]|] eqn:E1; [|done].
  destruct (load_and_merge K2 d) as [[m2 l2]|] eqn:E2; [|done].
  simpl in H1, H2. injection H1 as ->. injection H2 as ->.
  apply load_and_merge_Return in E1 as (-> & _ & _).
  apply load_and_merge_Return in E2 as (-> & _ & _).
  set (rows := (pd_concat (omap frame_of (sorted (glob_csv d)))).*1).
  assert (sort_values K1 rows ≡ₚ sort_values K2 rows) as Hp
    by (by rewrite !sort_values_perm).
  split; [by apply building_wise_summary_perm|].
  split; by apply resample_table_perm.
Qed.

Lemma aggregates_ignore_the_sort_kind_witness :
  ∃ df1 df2,
    merged_of (load_and_merge stable_kind dir_ties) = Return df1
    ∧ merged_of (load_and_merge reversing_kind dir_ties) = Return df2
    ∧ df1 ≠ df2
    ∧ building_wise_summary df1 = building_wise_summary df2.
Proof.
  eexists _, _. split; [reflexivity|]. split; [reflexivity|].
  split; [vm_compute; discriminate|].
  exact (proj1 (aggregates_ignore_the_sort_kind stable_kind reversing_kind dir_ties
           _ _ eq_refl eq_refl)).
Defined.

(** * The text summary *)

Lemma total_geb_total_ge r1 r2 : total_geb r1 r2 = true → total_ge r1 r2.
Proof. unfold total_geb, total_ge. by destruct (r_total_kwh r1), (r_total_kwh r2). Qed.

Lemma total_geb_false r1 r2 : total_geb r1 r2 = false → total_ge r2 r1.
Proof.
  unfold total_geb, total_ge.
  destruct (r_total_kwh r1) as [a| | |] eqn:E1, (r_total_kwh r2) as [b| | |] eqn:E2;
    try done.
  intros H. destruct (fle_total (Fin a) (Fin b)) as [H'|H']; [done..| |]; [done|congruence].
Qed.

Definition stable_kind_desc : sort_kind_desc :=
  {| sort_values_desc := sort_by total_geb;
     sort_values_desc_perm := sort_by_perm total_geb;
     sort_values_desc_sorted :=
       λ l, sort_by_sorted total_geb total_ge total_geb_total_ge total_geb_false l |}.

#[global] Instance total_ge_trans : Transitive total_ge.
Proof.
  intros r1 r2 r3. unfold total_ge.
  destruct (r_total_kwh r1) as [a| | |], (r_total_kwh r2) as [b| | |],
    (r_total_kwh r3) as [c| | |]; try done.
  intros H1 H2. by apply (fle_trans _ (Fin b)).
Qed.

Lemma idxmax_Some l i :
  idxmax l = Some i →
  l !! i = Some (pd_max l) ∧ pd_max l ≠ NaN
  ∧ (∀ y, y ∈ l → y ≠ NaN → fle y (pd_max l) = true)
  ∧ ∀ j y, l !! j = Some y → (j < i)%nat → y ≠ pd_max l.
Proof.
  unfold idxmax. pose proof (pd_max_spec l) as Hmax.
  destruct (filter (λ x, notna x = true) l) as [|x k]; [done|].
  destruct Hmax as (_ & Hn & Hle).
  destruct (list_find (λ x, x = pd_max l) l) as [[i' y]|] eqn:E; [|done].
  intros [= <-]. apply list_find_Some in E as (Hi & -> & Hfirst). eauto.
Qed.

Lemma idxmax_is_Some l x : x ∈ l → x ≠ NaN → is_Some (idxmax l).
Proof.
  intros Hx Hn. unfold idxmax. pose proof (pd_max_spec l) as Hmax.
  destruct (filter (λ x, notna x = true) l) as [|y k] eqn:E.
  - assert (x ∈ filter (λ x, notna x = true) l) as Hin
      by (apply list_elem_of_filter; split; [by destruct x|done]).
    rewrite E in Hin. by apply elem_of_nil in Hin.
  - destruct Hmax as (Hin & _ & _).
    destruct (list_find_elem_of (λ x, x = pd_max l) l (pd_max l) Hin eq_refl)
      as [[i z] ->].
    by eexists.
Qed.

Lemma strongly_sorted_lookup {A} (R : relation A) (l : list A) i j x y :
  StronglySorted R l → l !! i = Some x → l !! j = Some y → (i < j)%nat → R x y.
Proof.
  intros Hs. revert i j. induction Hs as [|a l Hl IH Ha]; intros i j Hi Hj Hij.
  - done.
  - destruct j as [|j]; [lia|]. destruct i as [|i].
    + injection Hi as ->. rewrite Forall_forall in Ha.
      apply Ha. by eapply list_elem_of_lookup_2.
    + apply (IH i j); [done..|lia].
Qed.

Lemma z_leb_trans (x y z : Z) : Z.leb x y = true → Z.leb y z = true → Z.leb x z = true.
Proof. rewrite !Z.leb_le. lia. Qed.

Lemma z_leb_total (x y : Z) : Z.leb x y = true ∨ Z.leb y x = true.
Proof. rewrite !Z.leb_le. lia. Qed.

Lemma trend_labels (table : DataFrame) t :
  t ∈ (trend table).*1 ↔ ∃ r, r ∈ table ∧ timestamp r = Some t.
Proof.
  unfold trend. rewrite <-list_fmap_compose.
  change (fst ∘ _) with (@id Z). rewrite list_fmap_id.
  rewrite sort_by_perm, elem_of_remove_dups. apply list_elem_of_omap.
Qed.

Lemma trend_lookup (table : DataFrame) i t v :
  trend table !! i = Some (t, v) →
  v = campus_total table t
  ∧ sort_by Z.leb (remove_dups (omap timestamp table)) !! i = Some t.
Proof.
  unfold trend. intros (t' & [= -> ->] & Ht)%list_lookup_fmap_Some. done.
Qed.

(** The label that [peak_period] picks: a label of the table whose total
    is a number that no other total exceeds, and the earliest such label. *)
Lemma peak_period_Some (table : DataFrame) d :
  peak_period table = Some d →
  (∃ r, r ∈ table ∧ timestamp r = Some d)
  ∧ campus_total table d ≠ NaN
  ∧ (∀ t r, r ∈ table → timestamp r = Some t → campus_total table t ≠ NaN →
       fle (campus_total table t) (campus_total table d) = true)
  ∧ (∀ t r, r ∈ table → timestamp r = Some t → t < d →
       campus_total table t ≠ campus_total table d).
Proof.
  unfold peak_period. cbn zeta.
  destruct (idxmax (trend table).*2) as [i|] eqn:E; [|done]. cbn [mbind option_bind].
  destruct (trend table !! i) as [[d' v]|] eqn:Ei; [|done]. intros [= ->].
  apply idxmax_Some in E as (Hi & Hn & Hle & Hfirst).
  rewrite list_lookup_fmap, Ei in Hi. injection Hi as Hv.
  destruct (trend_lookup _ _ _ _ Ei) as [-> Hd]. rewrite <-Hv in *.
  assert (∀ t, (∃ r, r ∈ table ∧ timestamp r = Some t) →
               ∃ j, trend table !! j = Some (t, campus_total table t)) as Hrow.
  { intros t Ht. apply trend_labels, list_elem_of_lookup in Ht as [j Hj].
    exists j. rewrite list_lookup_fmap in Hj.
    destruct (trend table !! j) as [[t' v']|] eqn:Ej; [|done].
    injection Hj as ->. by destruct (trend_lookup _ _ _ _ Ej) as [-> _]. }
  split.
  { apply trend_labels, list_elem_of_fmap. exists (d, campus_total table d).
    split; [done|]. by eapply list_elem_of_lookup_2. }
  split; [done|]. split.
  - intros t r Hr Ht Hnt. destruct (Hrow t) as [j Hj]; [eauto|].
    apply Hle; [|done]. apply list_elem_of_fmap. exists (t, campus_total table t).
    split; [done|]. by eapply list_elem_of_lookup_2.
  - intros t r Hr Ht Hlt. destruct (Hrow t) as [j Hj]; [eauto|].
    apply (Hfirst j); [by rewrite list_lookup_fmap, Hj|].
    destruct (trend_lookup _ _ _ _ Hj) as [_ Hjt].
    destruct (decide (j < i)%nat) as [|Hge]; [done|]. exfalso.
    destruct (decide (j = i)) as [->|Hne]; [rewrite Hjt in Hd; injection Hd; lia|].
    assert (Z.leb d t = true) as Hdt; [|apply Z.leb_le in Hdt; lia].
    apply (strongly_sorted_lookup (λ x y, Z.leb x y = true)
             (sort_by Z.leb (remove_dups (omap timestamp table))) i j d t);
      [|done|done|lia].
    apply (sort_by_strongly_sorted Z.leb z_leb_trans z_leb_total).
Qed.

Lemma peak_period_is_Some (table : DataFrame) r t :
  r ∈ table → timestamp r = Some t → campus_total table t ≠ NaN →
  is_Some (peak_period table).
Proof.
  intros Hr Ht Hn. unfold peak_period. cbn zeta.
  assert (t ∈ (trend table).*1) as Hin by (apply trend_labels; eauto).
  apply list_elem_of_fmap in Hin as ([t' v] & -> & Hin). simpl in *.
  pose proof Hin as [j Hj]%list_elem_of_lookup.
  destruct (trend_lookup _ _ _ _ Hj) as [-> _].
  destruct (idxmax_is_Some (trend table).*2 (campus_total table t')) as [i Hi];
    [|done|].
  { apply list_elem_of_fmap. by exists (t', campus_total table t'). }
  rewrite Hi. cbn [mbind option_bind].
  apply idxmax_Some in Hi as (Hi & _). rewrite list_lookup_fmap in Hi.
  destruct (trend table !! i) as [p|]; [by eexists|done].
Qed.

Lemma write_summary_Some K df s daily weekly f :
  write_summary K df s daily weekly = Some f →
  ∃ top i row,
    head (sort_values_desc K s) = Some top
    ∧ idxmax (kwh <$> df) = Some i ∧ df !! i = Some row
    ∧ peak_period daily = Some (daily_peak_day f)
    ∧ peak_period weekly = Some (weekly_peak_week f)
    ∧ total_campus f = pd_sum (kwh <$> df)
    ∧ top_building f = r_building top ∧ top_building_kwh f = r_total_kwh top
    ∧ peak_time f = timestamp row ∧ peak_building f = building row
    ∧ peak_value f = kwh row.
Proof.
  unfold write_summary.
  destruct (head (sort_values_desc K s)) as [top|]; [|done].
  destruct (idxmax (kwh <$> df)) as [i|]; [|done]. cbn [mbind option_bind].
  destruct (df !! i) as [row|] eqn:Hrow; [|done]. cbn [mbind option_bind].
  destruct (peak_period daily) as [d|]; [|done].
  destruct (peak_period weekly) as [w|]; [|done]. cbn [mbind option_bind].
  intros [= <-]. by exists top, i, row.
Qed.

(** X16: the "highest-consuming building" of the text summary is a report
    of the summary it is given, and no report has a larger total; which of
    several reports with the largest total it is, is the sorting
    algorithm's choice. *)
Theorem top_building_has_the_largest_total K df s daily weekly f :
  write_summary K df s daily weekly = Some f →
  (∃ r, r ∈ s ∧ r_building r = top_building f ∧ r_total_kwh r = top_building_kwh f)
  ∧ ∀ r, r ∈ s → r_total_kwh r ≠ NaN →
      top_building_kwh f ≠ NaN ∧ fle (r_total_kwh r) (top_building_kwh f) = true.
Proof.
  intros (top & i & row & Hhead & _ & _ & _ & _ & _ & Hb & Ht & _)%write_summary_Some.
  rewrite Hb, Ht.
  pose proof (sort_values_desc_sorted K s) as Hs.
  apply Sorted_StronglySorted in Hs; [|apply _].
  pose proof (sort_values_desc_perm K s) as Hp.
  apply head_Some in Hhead as [rest Hrest]. rewrite Hrest in Hs, Hp.
  split.
  - exists top. split; [|done]. rewrite <-Hp. apply list_elem_of_here.
  - intros r Hr Hn. rewrite <-Hp in Hr.
    apply StronglySorted_inv in Hs as [_ Hall]. rewrite Forall_forall in Hall.
    apply elem_of_cons in Hr as [->|Hr].
    + split; [done|]. by apply fle_refl.
    + specialize (Hall r Hr). unfold total_ge in Hall.
      destruct (r_total_kwh top), (r_total_kwh r); done.
Qed.

(** X17: the "peak load" of the text summary is the first row of the frame
    that holds the largest reading: no reading is larger, and every row
    before it holds another value. *)
Theorem peak_load_is_the_first_largest_reading K df s daily weekly f :
  write_summary K df s daily weekly = Some f →
  ∃ i row,
    df !! i = Some row
    ∧ peak_time f = timestamp row ∧ peak_building f = building row
    ∧ peak_value f = kwh row ∧ peak_value f ≠ NaN
    ∧ (∀ r, r ∈ df → kwh r ≠ NaN → fle (kwh r) (peak_value f) = true)
    ∧ ∀ j r, df !! j = Some r → (j < i)%nat → kwh r ≠ peak_value f.
Proof.
  intros (top & i & row & _ & Hi & Hrow & _ & _ & _ & _ & _ & Ht & Hb & Hv)%write_summary_Some.
  apply idxmax_Some in Hi as (Hmax & Hn & Hle & Hfirst).
  rewrite list_lookup_fmap, Hrow in Hmax. injection Hmax as Hmax.
  rewrite <-Hmax in *. rewrite <-Hv in *.
  exists i, row. repeat split; try done.
  - intros r Hr Hnr. apply Hle; [|done]. apply list_elem_of_fmap. eauto.
  - intros j r Hj Hlt. apply (Hfirst j); [|done]. by rewrite list_lookup_fmap, Hj.
Qed.

(** X18: the "day with highest total load" of the text summary is a day of
    the daily table on which the buildings together consumed no less than
    on any other day of the table, and the earliest such day; likewise the
    week of the weekly table. *)
Theorem peak_day_has_the_largest_campus_total K df s daily weekly f :
  write_summary K df s daily weekly = Some f →
  ((∃ r, r ∈ daily ∧ timestamp r = Some (daily_peak_day f))
   ∧ (∀ t r, r ∈ daily → timestamp r = Some t → campus_total daily t ≠ NaN →
        fle (campus_total daily t) (campus_total daily (daily_peak_day f)) = true)
   ∧ (∀ t r, r ∈ daily → timestamp r = Some t → t < daily_peak_day f →
        campus_total daily t ≠ campus_total daily (daily_peak_day f)))
  ∧ ((∃ r, r ∈ weekly ∧ timestamp r = Some (weekly_peak_week f))
     ∧ (∀ t r, r ∈ weekly → timestamp r = Some t → campus_total weekly t ≠ NaN →
          fle (campus_total weekly t) (campus_total weekly (weekly_peak_week f)) = true)
     ∧ (∀ t r, r ∈ weekly → timestamp r = Some t → t < weekly_peak_week f →
          campus_total weekly t ≠ campus_total weekly (weekly_peak_week f))).
Proof.
  intros (top & i & row & _ & _ & _ & Hd & Hw & _)%write_summary_Some.
  apply peak_period_Some in Hd as (Hd1 & _ & Hd2 & Hd3).
  apply peak_period_Some in Hw as (Hw1 & _ & Hw2 & Hw3).
  done.
Qed.

(** ** When the text summary is written *)

Lemma write_summary_is_Some K df s daily weekly :
  s ≠ [] →
  (∃ r, r ∈ df ∧ kwh r ≠ NaN) →
  (∃ r t, r ∈ daily ∧ timestamp r = Some t ∧ campus_total daily t ≠ NaN) →
  (∃ r t, r ∈ weekly ∧ timestamp r = Some t ∧ campus_total weekly t ≠ NaN) →
  is_Some (write_summary K df s daily weekly).
Proof.
  intros Hs (r & Hr & Hn) (rd & td & Hrd & Htd & Hnd) (rw & tw & Hrw & Htw & Hnw).
  unfold write_summary.
  destruct (sort_values_desc K s) as [|top rest] eqn:Es.
  { pose proof (sort_values_desc_perm K s) as Hp. rewrite Es in Hp.
    by apply Permutation_nil_l in Hp. }
  cbn [head mbind option_bind].
  destruct (idxmax_is_Some (kwh <$> df) (kwh r)) as [i Hi]; [|done|].
  { apply list_elem_of_fmap. eauto. }
  rewrite Hi. cbn [mbind option_bind].
  apply idxmax_Some in Hi as (Hi & _). rewrite list_lookup_fmap in Hi.
  destruct (df !! i) as [row|]; [|done]. cbn [mbind option_bind].
  destruct (peak_period_is_Some daily rd td Hrd Htd Hnd) as [d ->].
  destruct (peak_period_is_Some weekly rw tw Hrw Htw Hnw) as [w ->].
  by eexists.
Qed.

(** X19: [write_summary] gets through its lookups exactly when the building
    summary has a row, the frame has a reading that is a number, and each
    of the two tables has a labelled row whose campus total is a number;
    otherwise one of the lookups raises ([sort_values] on a summary without
    rows, [idxmax] on a column without a number, [.loc]). *)
Theorem write_summary_returns_iff K df s daily weekly :
  is_Some (write_summary K df s daily weekly) ↔
  s ≠ []
  ∧ (∃ r, r ∈ df ∧ kwh r ≠ NaN)
  ∧ (∃ r t, r ∈ daily ∧ timestamp r = Some t ∧ campus_total daily t ≠ NaN)
  ∧ (∃ r t, r ∈ weekly ∧ timestamp r = Some t ∧ campus_total weekly t ≠ NaN).
Proof.
  split.
  - intros [f Hf].
    destruct (write_summary_Some _ _ _ _ _ _ Hf)
      as (top & i & row & Hhead & Hi & Hrow & Hd & Hw & _).
    split; [|split; [|split]].
    + intros ->. pose proof (sort_values_desc_perm K []) as Hp.
      apply Permutation_nil_r in Hp. by rewrite Hp in Hhead.
    + apply idxmax_Some in Hi as (Hi & Hn & _).
      rewrite list_lookup_fmap, Hrow in Hi. injection Hi as Hi.
      exists row. split; [by eapply list_elem_of_lookup_2|congruence].
    + apply peak_period_Some in Hd as ((r & Hr & Ht) & Hn & _). eauto.
    + apply peak_period_Some in Hw as ((r & Hr & Ht) & Hn & _). eauto.
  - intros (Hs & Hdf & Hd & Hw). by apply write_summary_is_Some.
Qed.

Lemma not_negative_not_nan x : not_negative x → x ≠ NaN.
Proof. by destruct x. Qed.

Lemma finite_nonneg_not_negative x : finite_nonneg x = true → not_negative x.
Proof. destruct x; simpl; try done. by intros ?%bool_decide_eq_true. Qed.

(** Adding up readings that are not negative gives a number that is not
    negative, or the positive infinity: never NaN. This does not need the
    sum to be exact. *)
Lemma fadd_not_negative x y : not_negative x → not_negative y → not_negative (fadd x y).
Proof.
  destruct x as [a| | |], y as [b| | |]; simpl; try done.
  intros Ha Hb. rewrite <-(Qcplus_0_l 0). by apply Qcplus_le_compat.
Qed.

Lemma np_sum_not_negative l : Forall not_negative l → not_negative (np_sum l).
Proof.
  induction 1 as [|x l Hx _ IH]; [simpl; apply Qcle_refl|].
  change (np_sum (x :: l)) with (fadd x (np_sum l)).
  by apply fadd_not_negative.
Qed.

Lemma pd_sum_not_negative l : Forall not_negative l → not_negative (pd_sum l).
Proof.
  intros Hall. apply np_sum_not_negative, Forall_forall.
  intros x [_ Hx]%list_elem_of_filter. rewrite Forall_forall in Hall. auto.
Qed.

Lemma resample_table_rows bucket last label (df : DataFrame) r :
  r ∈ resample_table bucket last label df →
  ∃ b i, r = resampled_row bucket label df b i.
Proof.
  unfold resample_table. intros (l & Hr & Hl)%list_elem_of_join.
  apply list_elem_of_fmap in Hl as (b & -> & _).
  unfold resample_sum in Hr. destruct (omap timestamp (group b df)).
  { by apply elem_of_nil in Hr. }
  apply list_elem_of_fmap in Hr as (i & -> & _). by exists b, i.
Qed.

Lemma resample_table_not_negative bucket last label (df : DataFrame) :
  Forall (λ r, not_negative (kwh r)) df →
  Forall (λ r, not_negative (kwh r)) (resample_table bucket last label df).
Proof.
  intros Hall. apply Forall_forall.
  intros r (b & i & ->)%resample_table_rows. simpl.
  apply pd_sum_not_negative, Forall_fmap, Forall_forall.
  intros r [_ [_ Hr]%list_elem_of_filter]%list_elem_of_filter.
  rewrite Forall_forall in Hall. by apply Hall.
Qed.

Lemma campus_total_not_negative (table : DataFrame) t :
  Forall (λ r, not_negative (kwh r)) table → not_negative (campus_total table t).
Proof.
  intros Hall. apply pd_sum_not_negative, Forall_fmap, Forall_forall.
  intros r [_ Hr]%list_elem_of_filter. rewrite Forall_forall in Hall. by apply Hall.
Qed.

(** The table of a frame with a reading has a labelled row whose campus
    total is a number. *)
Lemma dense_table_labelled bucket last label (df out : DataFrame) r b t :
  dense_resample bucket last label df out →
  Forall (λ r, not_negative (kwh r)) out →
  r ∈ df → building r = Some b → timestamp r = Some t →
  ∃ r' t', r' ∈ out ∧ timestamp r' = Some t' ∧ campus_total out t' ≠ NaN.
Proof.
  intros (_ & _ & Hrow & _) Hall Hr Hb Ht.
  exists (resampled_row bucket label df b (bucket t)), (label (bucket t)).
  split; [|split; [done|]].
  - apply Hrow. intros E.
    pose proof (reading_in_its_bucket bucket df r b t Hr Hb Ht) as Hin.
    rewrite E in Hin. by apply elem_of_nil in Hin.
  - by apply not_negative_not_nan, campus_total_not_negative.
Qed.

Lemma summary_table_returns m :
  ∃ reports, summary_table m = Return reports
             ∧ length reports = length (buildings m).
Proof.
  unfold summary_table. induction (buildings m) as [|kv d IH].
  - by exists [].
  - destruct IH as (reports & E & Hlen). rewrite fmap_cons. cbn [collect].
    pose proof (generate_report_returns (heap m !!! kv.2)) as Hr.
    destruct (generate_report (heap m !!! kv.2)) as [rep|e]; [|done].
    rewrite E. exists (rep :: reports). split; [done|]. simpl. by rewrite Hlen.
Qed.

(** X20: on a frame that is not empty and whose rows all have a building
    name, a timestamp and a finite reading that is not negative, the call
    of [write_summary] in [main] gets through all its lookups: the registry
    reports without error and every figure of the summary finds its row.
    The total it prints is not negative. None of this needs the sums to be
    exact: a sum of such readings is a number that is not negative, or the
    positive infinity if it overflows, and never NaN. *)
Theorem main_summary_returns K ids (df : DataFrame) :
  df ≠ [] →
  Forall (λ r, is_Some (building r) ∧ is_Some (timestamp r)
               ∧ finite_nonneg (kwh r) = true) df →
  ∃ f, main_summary K ids df = Some f ∧ not_negative (total_campus f).
Proof.
  intros Hne Hall.
  assert (Forall (λ r, not_negative (kwh r)) df) as Hpos.
  { eapply Forall_impl; [exact Hall|].
    intros r (_ & _ & ?). by apply finite_nonneg_not_negative. }
  destruct df as [|r0 df']; [done|]. set (df := r0 :: df') in *.
  assert (r0 ∈ df) as Hr0 by apply list_elem_of_here.
  rewrite Forall_forall in Hall.
  destruct (Hall r0 Hr0) as ([b Hb] & [t Ht] & Hf).
  unfold main_summary.
  destruct (summary_table_returns (load_from_df ids df new_manager))
    as (reports & -> & Hlen).
  destruct (write_summary_is_Some K df reports
              (calculate_daily_totals df) (calculate_weekly_aggregates df))
    as [f Hf'].
  - intros ->. destruct (loaded_load_from_df ids df) as [_ Hkeys _].
    assert (Named b ∈ (buildings (load_from_df ids df new_manager)).*1) as Hin.
    { apply Hkeys, list_elem_of_fmap. exists (Named b, r0). split; [done|].
      apply elem_of_iterrows. exists 0%nat. split; [done|].
      symmetry. by apply row_key_Named. }
    destruct (buildings (load_from_df ids df new_manager)); [|done].
    by apply elem_of_nil in Hin.
  - exists r0. split; [done|]. apply not_negative_not_nan.
    by apply finite_nonneg_not_negative.
  - apply (dense_table_labelled day_of day_of day_label df _ r0 b t);
      [apply daily_table_dense|by apply resample_table_not_negative|done..].
  - apply (dense_table_labelled week_of last_week_of week_label df _ r0 b t);
      [apply weekly_table_dense|by apply resample_table_not_negative|done..].
  - exists f. split; [done|].
    apply write_summary_Some in Hf' as (_ & _ & _ & _ & _ & _ & _ & _ & -> & _).
    by apply pd_sum_not_negative, Forall_fmap.
Qed.

(** ** The text summary of a small frame *)

Lemma two_buildings_reports :
  summary_table (load_from_df shared two_buildings new_manager)
  = Return [ {| r_building := Named "B"; r_total_kwh := of_Z 10;
                r_mean_kwh := fdiv_count (of_Z 10) 1; r_max_kwh := of_Z 10 |};
             {| r_building := Named "A"; r_total_kwh := of_Z 12;
                r_mean_kwh := fdiv_count (of_Z 12) 2; r_max_kwh := of_Z 7 |} ].
Proof. reflexivity. Qed.

Example two_buildings_figures :
  main_summary stable_kind_desc shared two_buildings
  = Some {| total_campus := of_Z 22;
            top_building := Named "A"; top_building_kwh := of_Z 12;
            peak_time := Some 0; peak_building := Some "B"; peak_value := of_Z 10;
            daily_peak_day := 0; weekly_peak_week := week_label (-1) |}.
Proof. reflexivity. Qed.

Lemma top_building_has_the_largest_total_witness :
  ∃ s f,
    summary_table (load_from_df shared two_buildings new_manager) = Return s
    ∧ write_summary stable_kind_desc two_buildings s
        (calculate_daily_totals two_buildings)
        (calculate_weekly_aggregates two_buildings) = Some f
    ∧ top_building f = Named "A"
    ∧ ∀ r, r ∈ s → r_total_kwh r ≠ NaN →
        top_building_kwh f ≠ NaN ∧ fle (r_total_kwh r) (top_building_kwh f) = true.
Proof.
  eexists _, _. split; [reflexivity|].
  match goal with |- ?H ∧ _ => assert H as Hf by reflexivity end.
  split; [exact Hf|]. split; [reflexivity|].
  exact (proj2 (top_building_has_the_largest_total _ _ _ _ _ _ Hf)).
Defined.

Lemma peak_load_is_the_first_largest_reading_witness :
  ∃ s f,
    summary_table (load_from_df shared two_buildings new_manager) = Return s
    ∧ write_summary stable_kind_desc two_buildings s
        (calculate_daily_totals two_buildings)
        (calculate_weekly_aggregates two_buildings) = Some f
    ∧ ∃ i row,
        two_buildings !! i = Some row
        ∧ peak_time f = timestamp row ∧ peak_building f = building row
        ∧ peak_value f = kwh row ∧ peak_value f ≠ NaN
        ∧ (∀ r, r ∈ two_buildings → kwh r ≠ NaN → fle (kwh r) (peak_value f) = true)
        ∧ ∀ j r, two_buildings !! j = Some r → (j < i)%nat → kwh r ≠ peak_value f.
Proof.
  eexists _, _. split; [reflexivity|].
  match goal with |- ?H ∧ _ => assert H as Hf by reflexivity end.
  split; [exact Hf|].
  exact (peak_load_is_the_first_largest_reading _ _ _ _ _ _ Hf).
Defined.

Lemma peak_day_has_the_largest_campus_total_witness :
  ∃ s f,
    summary_table (load_from_df shared frame_with_gap new_manager) = Return s
    ∧ write_summary stable_kind_desc frame_with_gap s
        (calculate_daily_totals frame_with_gap)
        (calculate_weekly_aggregates frame_with_gap) = Some f
    ∧ daily_peak_day f = day_label 2
    ∧ ∀ t r, r ∈ calculate_daily_totals frame_with_gap → timestamp r = Some t →
        campus_total (calculate_daily_totals frame_with_gap) t ≠ NaN →
        fle (campus_total (calculate_daily_totals frame_with_gap) t)
            (campus_total (calculate_daily_totals frame_with_gap) (daily_peak_day f))
        = true.
Proof.
  eexists _, _. split; [reflexivity|].
  match goal with |- ?H ∧ _ => assert H as Hf by reflexivity end.
  split; [exact Hf|]. split; [reflexivity|].
  exact (proj1 (proj2 (proj1
           (peak_day_has_the_largest_campus_total _ _ _ _ _ _ Hf)))).
Defined.

Lemma main_summary_returns_witness :
  two_buildings ≠ []
  ∧ Forall (λ r, is_Some (building r) ∧ is_Some (timestamp r)
                 ∧ finite_nonneg (kwh r) = true) two_buildings
  ∧ ∃ f, main_summary stable_kind_desc shared two_buildings = Some f
         ∧ not_negative (total_campus f).
Proof.
  assert (two_buildings ≠ []) as Hne by done.
  assert (Forall (λ r, is_Some (building r) ∧ is_Some (timestamp r)
                       ∧ finite_nonneg (kwh r) = true) two_buildings) as Hall.
  { repeat constructor; by eexists. }
  split; [exact Hne|]. split; [exact Hall|].
  exact (main_summary_returns stable_kind_desc shared two_buildings Hne Hall).
Defined.
